(** * The request binder of tasker (package [validation]) and its error model

    A shallow embedding of [internal/validation] (the custom echo binder
    [CustomBinder], [BindAndValidate] and their helpers) and of
    [internal/errs], together with the parts of the Go runtime and standard
    library whose behaviour the binder depends on: [strings], [strconv],
    [fmt.Sscanf] under the verb [%02x], [reflect] kinds and setters, and
    [encoding/json] decoding into a [map[string]any].

    Go strings are byte sequences; they are modelled by [string], whose
    characters are bytes. *)

From Stdlib Require Import ZArith Ascii String List Lia Bool.
From stdpp Require Import base option list gmap strings fin_maps pretty.

Local Open Scope Z_scope.

(** ** Bytes *)

Definition byte_val (c : ascii) : Z := Z.of_N (N_of_ascii c).

Definition in_range (lo hi c : ascii) : bool :=
  (byte_val lo <=? byte_val c) && (byte_val c <=? byte_val hi).

Definition byte_of (n : Z) : ascii := ascii_of_N (Z.to_N n).

(** [lower(c)] of strconv: [c | ('x' - 'X')]. *)
Definition lower (c : ascii) : ascii := byte_of (Z.lor (byte_val c) 32).

Definition bytes (s : string) : list ascii := list_ascii_of_string s.
Definition str (l : list ascii) : string := string_of_list_ascii l.

(** ** Package [strings] *)

Module strings.

(** [strings.ToLower]: upper-case ASCII letters are mapped to lower case.
    Bytes outside ASCII are kept (Go maps non-ASCII letters through
    [unicode.ToLower]; struct field names are taken to be ASCII here). *)
Definition toLower_byte (c : ascii) : ascii :=
  if in_range "A" "Z" c then byte_of (byte_val c + 32) else c.

Fixpoint ToLower (s : string) : string :=
  match s with
  | EmptyString => EmptyString
  | String c s' => String (toLower_byte c) (ToLower s')
  end.

(** [strings.ToUpper], ASCII as above. *)
Definition toUpper_byte (c : ascii) : ascii :=
  if in_range "a" "z" c then byte_of (byte_val c - 32) else c.

Fixpoint ToUpper (s : string) : string :=
  match s with
  | EmptyString => EmptyString
  | String c s' => String (toUpper_byte c) (ToUpper s')
  end.

(** [strings.ReplaceAll(s, old, new)] for a one-byte [old], the only way
    the repository calls it. *)
Fixpoint ReplaceAll (s : string) (old : ascii) (new : string) : string :=
  match s with
  | EmptyString => EmptyString
  | String c s' =>
      if Ascii.eqb c old then new +:+ ReplaceAll s' old new
      else String c (ReplaceAll s' old new)
  end.

(** [strings.Split(s, sep)] for a one-byte separator: the pieces between
    separators, always at least one piece. *)
Fixpoint Split_go (s : string) (sep : ascii) (cur : list ascii) : list string :=
  match s with
  | EmptyString => [str (rev cur)]
  | String c s' =>
      if Ascii.eqb c sep then str (rev cur) :: Split_go s' sep []
      else Split_go s' sep (c :: cur)
  end.

Definition Split (s : string) (sep : ascii) : list string := Split_go s sep [].

End strings.

(** ** Package [strconv] *)

Module strconv.

Inductive NumError := ErrSyntax | ErrRange.

(** The platform's [int] is 64 bits wide ([strconv.IntSize] on the 64-bit
    targets the server is built for). *)
Definition IntSize : Z := 64.

(** The digit value [ParseUint] gives a byte: decimal digits, then letters
    of either case from 10 up. *)
Definition digit (c : ascii) : option Z :=
  if in_range "0" "9" c then Some (byte_val c - byte_val "0")
  else if in_range "a" "z" (lower c) then Some (byte_val (lower c) - byte_val "a" + 10)
  else None.

Fixpoint ParseUint_go (cs : list ascii) (base maxVal n : Z) : NumError + Z :=
  match cs with
  | [] => inr n
  | c :: cs' =>
      match digit c with
      | None => inl ErrSyntax
      | Some d =>
          if base <=? d then inl ErrSyntax
          else
            let n1 := n * base + d in
            if maxVal <? n1 then inl ErrRange
            else ParseUint_go cs' base maxVal n1
      end
  end.

(** [strconv.ParseUint(s, base, bitSize)] for an explicit base (2..36): no
    sign, no base prefix and no underscore is accepted. *)
Definition ParseUint (s : string) (base bitSize : Z) : NumError + Z :=
  match bytes s with
  | [] => inl ErrSyntax
  | cs => ParseUint_go cs base (2 ^ bitSize - 1) 0
  end.

(** [strconv.ParseInt(s, base, bitSize)]: an optional sign, then
    [ParseUint]; the magnitude is checked against the signed range. *)
Definition ParseInt (s : string) (base bitSize : Z) : NumError + Z :=
  match s with
  | EmptyString => inl ErrSyntax
  | String c s' =>
      let neg := Ascii.eqb c "-" in
      let s1 := if Ascii.eqb c "+" || neg then s' else s in
      match ParseUint s1 base bitSize with
      | inl e => inl e
      | inr un =>
          let cutoff := 2 ^ (bitSize - 1) in
          if negb neg && (cutoff <=? un) then inl ErrRange
          else if neg && (cutoff <? un) then inl ErrRange
          else inr (if neg then - un else un)
      end
  end.

(** [strconv.ParseBool]. *)
Definition ParseBool (s : string) : option bool :=
  if bool_decide (s ∈ ["1"; "t"; "T"; "TRUE"; "true"; "True"]) then Some true
  else if bool_decide (s ∈ ["0"; "f"; "F"; "FALSE"; "false"; "False"]) then Some false
  else None.

End strconv.

(** Floating point is kept abstract: the binder only needs to know whether
    [strconv.ParseFloat(s, 64)] reports an error, and stores what it
    returns. *)
Class Floats := {
  float64 : Type;
  float64_zero : float64;
  (** [strconv.ParseFloat(s, 64)], [None] when it returns an error. *)
  ParseFloat : string → option float64;
  (** The conversion [float32(x)], as a value of the wider type. *)
  to_float32 : float64 → float64;
}.

(** ** Package [fmt]: scanning one byte under [%02x] *)

Module fmt.

Inductive ScanError :=
| UnexpectedNewline
| UnexpectedEOF
| ExpectedInteger
| BadNumber (e : strconv.NumError)
| Overflow.

(** [isSpace] of fmt/scan.go on ASCII. *)
Definition isSpace (c : ascii) : bool :=
  in_range "009" "013" c || Ascii.eqb c " ".

(** The scanner's [SkipSpace] under [Sscanf] (where a newline is no blank):
    the input left after the blanks, or the error a newline raises. *)
Fixpoint SkipSpace (cs : list ascii) : ScanError + list ascii :=
  match cs with
  | [] => inr []
  | c :: cs' =>
      if Ascii.eqb c "010" then inl UnexpectedNewline
      else if isSpace c then SkipSpace cs'
      else inr cs
  end.

(** The digits [getBase] gives for the verb [x], [hexadecimalDigits]: the
    hexadecimal digits in either case (an underscore is a digit under the
    verb [v] only). *)
Definition hexadecimalDigits (c : ascii) : bool :=
  in_range "0" "9" c || in_range "a" "f" c || in_range "A" "F" c.

Fixpoint accept_while (p : ascii → bool) (cs : list ascii) : list ascii :=
  match cs with
  | c :: cs' => if p c then c :: accept_while p cs' else []
  | [] => []
  end.

(** [fmt.Sscanf(s, "%02x", &b)] with [b] a [uint8]: leading blanks are
    skipped, then at most two runes (the width) are read while they are
    digits of the verb; the token read is handed to
    [strconv.ParseUint(tok, 16, 64)] and must fit 8 bits.  Input left
    unread is no error.  The result is the byte stored in [b], or the
    error, in which case [b] is not written.

    Runes are bytes here: a byte above 127 is neither a blank nor a digit
    (in the two-byte inputs [parseUUID] passes, a blank outside ASCII
    leaves nothing to read, which is an error as well). *)
Definition Sscanf_02x (s : string) : ScanError + Z :=
  match SkipSpace (bytes s) with
  | inl e => inl e
  | inr [] => inl UnexpectedEOF
  | inr cs =>
      match accept_while hexadecimalDigits (take 2%nat cs) with
      | [] => inl ExpectedInteger
      | tok =>
          match strconv.ParseUint (str tok) 16 64 with
          | inl e => inl (BadNumber e)
          | inr n => if n <? 2 ^ 8 then inr n else inl Overflow
          end
      end
  end.

End fmt.

(** ** Package [reflect] *)

Module reflect.

(** [reflect.Kind], in the order of its constants: the binder compares
    kinds with [>=] and [<=]. *)
Inductive Kind :=
| Invalid | Bool | Int | Int8 | Int16 | Int32 | Int64
| Uint | Uint8 | Uint16 | Uint32 | Uint64 | Uintptr
| Float32 | Float64 | Complex64 | Complex128
| Array | Chan | Func | Interface | Map | Pointer | Slice
| String | Struct | UnsafePointer.

#[global] Instance Kind_eq_dec : EqDecision Kind.
Proof. solve_decision. Defined.

(** The numeric value of a kind constant. *)
Definition ord (k : Kind) : Z :=
  match k with
  | Invalid => 0 | Bool => 1 | Int => 2 | Int8 => 3 | Int16 => 4
  | Int32 => 5 | Int64 => 6 | Uint => 7 | Uint8 => 8 | Uint16 => 9
  | Uint32 => 10 | Uint64 => 11 | Uintptr => 12 | Float32 => 13
  | Float64 => 14 | Complex64 => 15 | Complex128 => 16 | Array => 17
  | Chan => 18 | Func => 19 | Interface => 20 | Map => 21
  | Pointer => 22 | Slice => 23 | String => 24 | Struct => 25
  | UnsafePointer => 26
  end.

(** [reflect.Type], by shape.  A struct type is opaque: the binder never
    looks inside the type of a field. *)
Inductive rtype :=
| TBool | TInt | TInt8 | TInt16 | TInt32 | TInt64
| TUint | TUint8 | TUint16 | TUint32 | TUint64 | TUintptr
| TFloat32 | TFloat64 | TComplex64 | TComplex128
| TArray (len : Z) (elem : rtype)
| TChan (elem : rtype)
| TFunc
| TInterface
| TMap (key elem : rtype)
| TPointer (elem : rtype)
| TSlice (elem : rtype)
| TString
| TStruct (name : string)
| TUnsafePointer.

#[global] Instance rtype_eq_dec : EqDecision rtype.
Proof. solve_decision. Defined.

(** [Type.Kind()]. *)
Definition KindOf (t : rtype) : Kind :=
  match t with
  | TBool => Bool | TInt => Int | TInt8 => Int8 | TInt16 => Int16
  | TInt32 => Int32 | TInt64 => Int64 | TUint => Uint | TUint8 => Uint8
  | TUint16 => Uint16 | TUint32 => Uint32 | TUint64 => Uint64
  | TUintptr => Uintptr | TFloat32 => Float32 | TFloat64 => Float64
  | TComplex64 => Complex64 | TComplex128 => Complex128
  | TArray _ _ => Array | TChan _ => Chan | TFunc => Func
  | TInterface => Interface | TMap _ _ => Map | TPointer _ => Pointer
  | TSlice _ => Slice | TString => String | TStruct _ => Struct
  | TUnsafePointer => UnsafePointer
  end.

(** [Type.Len()] of an array type ([None] where Go panics). *)
Definition Len (t : rtype) : option Z :=
  match t with TArray n _ => Some n | _ => None end.

(** [Type.Elem()] ([None] where Go panics). *)
Definition Elem (t : rtype) : option rtype :=
  match t with
  | TArray _ e | TChan e | TMap _ e | TPointer e | TSlice e => Some e
  | _ => None
  end.

(** The width in bits of an integer kind. *)
Definition Bits (k : Kind) : Z :=
  match k with
  | Int8 | Uint8 => 8
  | Int16 | Uint16 => 16
  | Int32 | Uint32 | Float32 => 32
  | Int | Uint | Uintptr => strconv.IntSize
  | _ => 64
  end.

(** The conversion of an [int64] to a signed type of [w] bits (two's
    complement wrap-around), and of a [uint64] to an unsigned one. *)
Definition wrap_signed (w x : Z) : Z :=
  (x + 2 ^ (w - 1)) mod 2 ^ w - 2 ^ (w - 1).
Definition wrap_unsigned (w x : Z) : Z := x mod 2 ^ w.

Section Values.
Context `{Floats}.

(** The contents of a [reflect.Value]. *)
#[warnings="-register-all"]
Inductive Value :=
| VBool (b : bool)
| VInt (n : Z)
| VUint (n : Z)
| VFloat (f : float64)
| VString (s : string)
| VArray (elems : list Value)
(** a pointer: nil, or the value it points to *)
| VPointer (p : option Value)
(** the zero value of a type the binder has no setter for *)
| VZero.

(** [reflect.Zero(t)], also what [reflect.New(t).Elem()] holds. *)
Fixpoint Zero (t : rtype) : Value :=
  match t with
  | TBool => VBool false
  | TInt | TInt8 | TInt16 | TInt32 | TInt64 => VInt 0
  | TUint | TUint8 | TUint16 | TUint32 | TUint64 | TUintptr => VUint 0
  | TFloat32 | TFloat64 => VFloat float64_zero
  | TString => VString ""
  | TArray n e => VArray (replicate (Z.to_nat n) (Zero e))
  | TPointer _ => VPointer None
  | _ => VZero
  end.

(** [Value.SetInt(x)] on a value of kind [k]: [x] converted to the
    field's own width. *)
Definition SetInt (k : Kind) (x : Z) : Value := VInt (wrap_signed (Bits k) x).
(** [Value.SetUint(x)]. *)
Definition SetUint (k : Kind) (x : Z) : Value := VUint (wrap_unsigned (Bits k) x).
(** [Value.SetFloat(x)]. *)
Definition SetFloat (k : Kind) (x : float64) : Value :=
  VFloat (if decide (k = Float32) then to_float32 x else x).
End Values.

(** [Type.String()] of an unnamed type (a struct type prints its name). *)
Fixpoint TypeString (t : rtype) : string :=
  match t with
  | TBool => "bool" | TInt => "int" | TInt8 => "int8" | TInt16 => "int16"
  | TInt32 => "int32" | TInt64 => "int64" | TUint => "uint"
  | TUint8 => "uint8" | TUint16 => "uint16" | TUint32 => "uint32"
  | TUint64 => "uint64" | TUintptr => "uintptr" | TFloat32 => "float32"
  | TFloat64 => "float64" | TComplex64 => "complex64"
  | TComplex128 => "complex128"
  | TArray n e => "[" +:+ pretty n +:+ "]" +:+ TypeString e
  | TChan e => "chan " +:+ TypeString e
  | TFunc => "func()"
  | TInterface => "interface {}"
  | TMap k e => "map[" +:+ TypeString k +:+ "]" +:+ TypeString e
  | TPointer e => "*" +:+ TypeString e
  | TSlice e => "[]" +:+ TypeString e
  | TString => "string"
  | TStruct name => name
  | TUnsafePointer => "unsafe.Pointer"
  end.

(** [reflect.StructTag] as the key/value pairs it spells. *)
Definition StructTag := list (string * string).

(** [StructTag.Get(key)]: the value of the first pair under [key], the
    empty string when there is none. *)
Fixpoint Get (tag : StructTag) (key : string) : string :=
  match tag with
  | [] => ""
  | (k, v) :: tag' => if decide (k = key) then v else Get tag' key
  end.

(** [reflect.StructField]. *)
Record StructField := {
  Name : string;
  Type_ : rtype;
  Tag : StructTag;
}.

(** A field is exported when its name starts with an upper-case letter
    (ASCII here); [Value.CanSet()] of a field reached through a pointer to
    the struct is true exactly for exported fields. *)
Definition CanSet (f : StructField) : bool :=
  match Name f with
  | EmptyString => false
  | String.String c _ => in_range "A" "Z" c
  end.

End reflect.

(** ** Package [errs] *)

Module errs.

(** [errs.BindError] (named [FieldError] in http.go): at most one of the
    five selectors is meant to be set. *)
Record BindError := {
  Field : option string;   (* for JSON body fields *)
  Query : option string;   (* for query params *)
  Param : option string;   (* for path params *)
  Form : option string;    (* for form data *)
  Header : option string;  (* for headers *)
  Error : string;
}.

#[global] Instance BindError_eq_dec : EqDecision BindError.
Proof. solve_decision. Defined.

Record HTTPError := {
  Code : string;
  Message : string;
  Status : Z;
  Override : bool;
  Errors : list BindError;
}.

Definition MakeUpperSnakeCase (s : string) : string :=
  let s := strings.ReplaceAll s " " "_" in
  let s := strings.ReplaceAll s "-" "_" in
  strings.ToUpper s.

Definition StatusBadRequest : Z := 400.
Definition StatusUnprocessableEntity : Z := 422.

(** [http.StatusText] on the two statuses the binder produces. *)
Definition StatusText (status : Z) : string :=
  if status =? 400 then "Bad Request"
  else if status =? 422 then "Unprocessable Entity"
  else "".

Definition newError (status : Z) (message : string) (override : bool)
    (code : option string) (errors : list BindError) : HTTPError :=
  let code := match code with
              | None => MakeUpperSnakeCase (StatusText status)
              | Some c => c
              end in
  {| Code := code; Message := message; Status := status;
     Override := override; Errors := errors |}.

(** The [override] argument is dropped: [false] is passed on. *)
Definition NewUnprocessableError (message : string) (override : bool)
    (code : option string) (errors : list BindError) : HTTPError :=
  newError StatusUnprocessableEntity message false code errors.

End errs.

(** ** Package [encoding/json]: decoding a document into [any] *)

Module json.

(** A decoded JSON value, as [Unmarshal] stores it in an [any]: [nil],
    [bool], [float64] (kept as the number's text), [string], [[]any] and
    [map[string]any] (kept as the members in the order of the text). *)
#[warnings="-register-all"]
Inductive any :=
| JNull
| JBool (b : bool)
| JNumber (lit : string)
| JString (s : string)
| JArray (elems : list any)
| JObject (members : list (string * any)).

(** *** Unquoting a string literal *)

Definition hexval (c : ascii) : Z :=
  if in_range "0" "9" c then byte_val c - 48
  else if in_range "a" "f" c then byte_val c - 87
  else byte_val c - 55.

Definition getu4 (h1 h2 h3 h4 : ascii) : Z :=
  ((hexval h1 * 16 + hexval h2) * 16 + hexval h3) * 16 + hexval h4.

Definition is_hex (c : ascii) : bool :=
  in_range "0" "9" c || in_range "a" "f" c || in_range "A" "F" c.

(** [utf8.EncodeRune] (surrogates and out-of-range runes never reach it). *)
Definition EncodeRune (r : Z) : list ascii :=
  if r <? 128 then [byte_of r]
  else if r <? 2048 then [byte_of (192 + r / 64); byte_of (128 + r mod 64)]
  else if r <? 65536 then
    [byte_of (224 + r / 4096); byte_of (128 + (r / 64) mod 64); byte_of (128 + r mod 64)]
  else
    [byte_of (240 + r / 262144); byte_of (128 + (r / 4096) mod 64);
     byte_of (128 + (r / 64) mod 64); byte_of (128 + r mod 64)].

Definition ReplacementChar : Z := 65533.

Definition cont (c : ascii) : bool := in_range "128" "191" c.

(** The second byte [utf8.DecodeRune] accepts after the first byte [b0] of
    a sequence of [n] bytes; [n = 0] for a byte that starts no sequence. *)
Definition utf8_first (b0 : ascii) : nat * ascii * ascii :=
  let b := byte_val b0 in
  if (194 <=? b) && (b <=? 223) then (2%nat, "128", "191")%char
  else if b =? 224 then (3%nat, "160", "191")%char
  else if b =? 237 then (3%nat, "128", "159")%char
  else if (225 <=? b) && (b <=? 239) then (3%nat, "128", "191")%char
  else if b =? 240 then (4%nat, "144", "191")%char
  else if (241 <=? b) && (b <=? 243) then (4%nat, "128", "191")%char
  else if b =? 244 then (4%nat, "128", "143")%char
  else (0%nat, "000", "000")%char.

(** [unquote]: the bytes a string literal denotes, from the bytes between
    its quotes.  Escapes are decoded; an escaped surrogate that is not
    half of a pair, and every byte that is not part of a well-formed
    UTF-8 sequence, becomes U+FFFD. *)
Fixpoint unquote (cs : list ascii) : list ascii :=
  match cs with
  | [] => []
  | c :: rest =>
      if Ascii.eqb c "\" then
        match rest with
        | [] => []
        | e :: rest1 =>
            if Ascii.eqb e "u" then
              match rest1 with
              | h1 :: h2 :: h3 :: h4 :: rest2 =>
                  let rr := getu4 h1 h2 h3 h4 in
                  if (55296 <=? rr) && (rr <? 57344) then
                    match rest2 with
                    | b :: u :: g1 :: g2 :: g3 :: g4 :: rest3 =>
                        let rr1 := getu4 g1 g2 g3 g4 in
                        if Ascii.eqb b "\" && Ascii.eqb u "u"
                           && is_hex g1 && is_hex g2 && is_hex g3 && is_hex g4
                           && (rr <? 56320) && (56320 <=? rr1) && (rr1 <? 57344)
                        then EncodeRune ((rr - 55296) * 1024 + (rr1 - 56320) + 65536)
                               ++ unquote rest3
                        else EncodeRune ReplacementChar ++ unquote rest2
                    | _ => EncodeRune ReplacementChar ++ unquote rest2
                    end
                  else EncodeRune rr ++ unquote rest2
              | _ => []
              end
            else
              (if Ascii.eqb e "b" then "008"
               else if Ascii.eqb e "f" then "012"
               else if Ascii.eqb e "n" then "010"
               else if Ascii.eqb e "r" then "013"
               else if Ascii.eqb e "t" then "009"
               else e)%char :: unquote rest1
        end
      else if byte_val c <? 128 then c :: unquote rest
      else
        let '(n, lo, hi) := utf8_first c in
        let bad := EncodeRune ReplacementChar ++ unquote rest in
        match n, rest with
        | 2%nat, b1 :: rest1 =>
            if in_range lo hi b1 then c :: b1 :: unquote rest1 else bad
        | 3%nat, b1 :: b2 :: rest2 =>
            if in_range lo hi b1 && cont b2 then c :: b1 :: b2 :: unquote rest2
            else bad
        | 4%nat, b1 :: b2 :: b3 :: rest3 =>
            if in_range lo hi b1 && cont b2 && cont b3
            then c :: b1 :: b2 :: b3 :: unquote rest3
            else bad
        | _, _ => bad
        end
  end.

(** *** The scanner *)

Inductive token :=
| TBeginObject | TEndObject | TBeginArray | TEndArray
| TColon | TComma
| TLiteral (v : any).

(** Where the scanner stands inside a string literal. *)
Inductive str_state :=
| InString
| InStringEsc
| InStringEscU (left : nat).

(** Where the scanner stands inside a number: the states [stateNeg],
    [state0], [state1], [stateDot], [stateDot0], [stateE], [stateESign]
    and [stateE0] of scanner.go. *)
Inductive num_state := Neg | N0 | N1 | Dot | Dot0 | E | ESign | E0.

Inductive lex_state :=
| Between
| InStr (acc : list ascii) (st : str_state)
| InNum (acc : list ascii) (st : num_state)
| InWord (rest : list ascii) (v : any).

Definition isSpace (c : ascii) : bool :=
  Ascii.eqb c " " || Ascii.eqb c "009" || Ascii.eqb c "013" || Ascii.eqb c "010".

Definition is_digit (c : ascii) : bool := in_range "0" "9" c.

(** One byte at the start of a value or between tokens: nothing (a
    blank), a token, a new state, or an error. *)
Inductive start_action :=
| Blank
| Emit (t : token)
| Enter (st : lex_state)
| Bad.

Definition stateBeginValue (c : ascii) : start_action :=
  if isSpace c then Blank
  else if Ascii.eqb c "{" then Emit TBeginObject
  else if Ascii.eqb c "}" then Emit TEndObject
  else if Ascii.eqb c "[" then Emit TBeginArray
  else if Ascii.eqb c "]" then Emit TEndArray
  else if Ascii.eqb c ":" then Emit TColon
  else if Ascii.eqb c "," then Emit TComma
  else if Ascii.eqb c "034" then Enter (InStr [] InString)
  else if Ascii.eqb c "-" then Enter (InNum [c] Neg)
  else if Ascii.eqb c "0" then Enter (InNum [c] N0)
  else if in_range "1" "9" c then Enter (InNum [c] N1)
  else if Ascii.eqb c "t" then Enter (InWord (bytes "rue") (JBool true))
  else if Ascii.eqb c "f" then Enter (InWord (bytes "alse") (JBool false))
  else if Ascii.eqb c "n" then Enter (InWord (bytes "ull") JNull)
  else Bad.

(** The next state of a number on one more byte, [None] when the byte is
    no part of the number. *)
Definition num_step (st : num_state) (c : ascii) : option num_state :=
  let e := Ascii.eqb c "e" || Ascii.eqb c "E" in
  match st with
  | Neg => if Ascii.eqb c "0" then Some N0
           else if in_range "1" "9" c then Some N1 else None
  | N0 => if Ascii.eqb c "." then Some Dot else if e then Some E else None
  | N1 => if is_digit c then Some N1
          else if Ascii.eqb c "." then Some Dot else if e then Some E else None
  | Dot => if is_digit c then Some Dot0 else None
  | Dot0 => if is_digit c then Some Dot0 else if e then Some E else None
  | E => if Ascii.eqb c "+" || Ascii.eqb c "-" then Some ESign
         else if is_digit c then Some E0 else None
  | ESign => if is_digit c then Some E0 else None
  | E0 => if is_digit c then Some E0 else None
  end.

(** The states in which a number may end. *)
Definition num_final (st : num_state) : bool :=
  match st with N0 | N1 | Dot0 | E0 => true | _ => false end.

Definition str_step (st : str_state) (c : ascii) : option str_state :=
  match st with
  | InString =>
      if Ascii.eqb c "\" then Some InStringEsc
      else if byte_val c <? 32 then None
      else Some InString
  | InStringEsc =>
      if Ascii.eqb c "u" then Some (InStringEscU 4)
      else if bool_decide (c ∈ bytes "bfnrt\/" ++ ["034"%char]) then Some InString
      else None
  | InStringEscU n =>
      if is_hex c then Some (match n with
                             | S (S m) => InStringEscU (S m)
                             | _ => InString
                             end)
      else None
  end.

(** The tokens of a document, [None] on a byte the scanner rejects. *)
Fixpoint scan (st : lex_state) (cs : list ascii) : option (list token) :=
  match cs with
  | [] =>
      match st with
      | Between => Some []
      | InNum acc n =>
          if num_final n then Some [TLiteral (JNumber (str (rev acc)))] else None
      | _ => None
      end
  | c :: cs' =>
      let start (pre : list token) :=
        match stateBeginValue c with
        | Blank => (pre ++.) <$> scan Between cs'
        | Emit t => ((pre ++ [t]) ++.) <$> scan Between cs'
        | Enter st' => (pre ++.) <$> scan st' cs'
        | Bad => None
        end in
      match st with
      | Between => start []
      | InStr acc s =>
          if (Ascii.eqb c "034") && (match s with InString => true | _ => false end) then
            (TLiteral (JString (str (unquote (rev acc)))) ::.) <$> scan Between cs'
          else
            match str_step s c with
            | Some s' => scan (InStr (c :: acc) s') cs'
            | None => None
            end
      | InNum acc n =>
          match num_step n c with
          | Some n' => scan (InNum (c :: acc) n') cs'
          | None =>
              if num_final n then start [TLiteral (JNumber (str (rev acc)))]
              else None
          end
      | InWord rest v =>
          match rest with
          | [] => None
          | [r] => if Ascii.eqb c r then (TLiteral v ::.) <$> scan Between cs' else None
          | r :: rest' => if Ascii.eqb c r then scan (InWord rest' v) cs' else None
          end
      end
  end.

(** *** The parser *)

(** An open array with the elements read so far, or an open object with
    the members read so far and the key whose value is awaited (both
    latest first). *)
Inductive frame :=
| FArray (acc : list any)
| FObject (acc : list (string * any)) (key : option string).

Inductive parse_state :=
| BeginValue          (* a value *)
| BeginValueOrEmpty   (* after '[': a value or ']' *)
| BeginStringOrEmpty  (* after '{': a key or '}' *)
| BeginString         (* after ',' in an object: a key *)
| ObjectKey           (* after a key: ':' *)
| EndValue            (* after a value in an array or object *)
| EndTop (v : any).   (* after the top-level value *)

Definition maxNestingDepth : Z := 10000.

(** A value is complete: it is the document, or joins the innermost open
    array or object. *)
Definition endValue (v : any) (stack : list frame)
    : option (parse_state * list frame) :=
  match stack with
  | [] => Some (EndTop v, [])
  | FArray acc :: stack' => Some (EndValue, FArray (v :: acc) :: stack')
  | FObject acc (Some k) :: stack' =>
      Some (EndValue, FObject ((k, v) :: acc) None :: stack')
  | FObject _ None :: _ => None
  end.

Definition pushParseState (f : frame) (st : parse_state) (stack : list frame)
    : option (parse_state * list frame) :=
  if Z.of_nat (length (f :: stack)) <=? maxNestingDepth
  then Some (st, f :: stack) else None.

Definition beginValue (t : token) (stack : list frame)
    : option (parse_state * list frame) :=
  match t with
  | TLiteral v => endValue v stack
  | TBeginArray => pushParseState (FArray []) BeginValueOrEmpty stack
  | TBeginObject => pushParseState (FObject [] None) BeginStringOrEmpty stack
  | _ => None
  end.

Definition beginString (t : token) (stack : list frame)
    : option (parse_state * list frame) :=
  match t, stack with
  | TLiteral (JString k), FObject acc None :: stack' =>
      Some (ObjectKey, FObject acc (Some k) :: stack')
  | _, _ => None
  end.

Definition parse_step (st : parse_state) (stack : list frame) (t : token)
    : option (parse_state * list frame) :=
  match st with
  | BeginValue => beginValue t stack
  | BeginValueOrEmpty =>
      match t, stack with
      | TEndArray, FArray acc :: stack' => endValue (JArray (rev acc)) stack'
      | _, _ => beginValue t stack
      end
  | BeginStringOrEmpty =>
      match t, stack with
      | TEndObject, FObject acc None :: stack' => endValue (JObject (rev acc)) stack'
      | _, _ => beginString t stack
      end
  | BeginString => beginString t stack
  | ObjectKey => match t with TColon => Some (BeginValue, stack) | _ => None end
  | EndValue =>
      match t, stack with
      | TComma, FArray _ :: _ => Some (BeginValue, stack)
      | TEndArray, FArray acc :: stack' => endValue (JArray (rev acc)) stack'
      | TComma, FObject _ None :: _ => Some (BeginString, stack)
      | TEndObject, FObject acc None :: stack' => endValue (JObject (rev acc)) stack'
      | _, _ => None
      end
  | EndTop _ => None
  end.

Fixpoint parse_tokens (st : parse_state) (stack : list frame) (ts : list token)
    : option any :=
  match ts with
  | [] => match st with EndTop v => Some v | _ => None end
  | t :: ts' =>
      match parse_step st stack t with
      | Some (st', stack') => parse_tokens st' stack' ts'
      | None => None
      end
  end.

(** The value a document spells, [None] when it is not valid JSON
    ([checkValid] reports a [SyntaxError]). *)
Definition parse (data : string) : option any :=
  match scan Between (bytes data) with
  | Some ts => parse_tokens BeginValue [] ts
  | None => None
  end.

(** [json.Valid]. *)
Definition Valid (data : string) : bool :=
  match parse data with Some _ => true | None => false end.

(** *** Numbers *)

Fixpoint digits_val (cs : list ascii) (n : Z) : Z :=
  match cs with
  | [] => n
  | c :: cs' => digits_val cs' (n * 10 + (byte_val c - 48))
  end.

(** A number literal as [(d, e)] with value [± d * 10 ^ e]: the digits of
    its integer and fraction parts, and its exponent less the length of
    the fraction. *)
Definition decimal (lit : string) : Z * Z :=
  let cs := match bytes lit with
            | c :: cs' => if Ascii.eqb c "-" then cs' else c :: cs'
            | [] => []
            end in
  let is_e c := Ascii.eqb c "e" || Ascii.eqb c "E" in
  let mant := fmt.accept_while (λ c, negb (is_e c)) cs in
  let exp := drop (S (length mant)) cs in
  let int := fmt.accept_while is_digit mant in
  let frac := drop (S (length int)) mant in
  let exp_neg := match exp with c :: _ => Ascii.eqb c "-" | [] => false end in
  let exp_digits := filter is_digit exp in
  let e := digits_val exp_digits 0 in
  (digits_val (int ++ frac) 0,
   (if exp_neg then - e else e) - Z.of_nat (length frac)).

(** [convertNumber]: [strconv.ParseFloat(lit, 64)] on the text of a JSON
    number fails exactly when the value rounds to an infinity, that is
    when its magnitude reaches [2^1024 - 2^970], half an ulp above the
    largest [float64]. *)
Definition convertNumber_ok (lit : string) : bool :=
  let '(d, e) := decimal lit in
  let limit := 2 ^ 1024 - 2 ^ 970 in
  if d =? 0 then true
  else if 0 <=? e then
    if 400 <? e then false else d * 10 ^ e <? limit
  else
    if Z.of_nat (length (bytes lit)) <? - e then true
    else d <? limit * 10 ^ (- e).

(** The first number of a value, in the order of the text, that does not
    convert. *)
Fixpoint bad_number (v : any) : option string :=
  match v with
  | JNumber lit => if convertNumber_ok lit then None else Some lit
  | JArray elems =>
      (fix go (l : list any) : option string :=
         match l with
         | [] => None
         | x :: l' => match bad_number x with Some n => Some n | None => go l' end
         end) elems
  | JObject members =>
      (fix go (l : list (string * any)) : option string :=
         match l with
         | [] => None
         | (_, x) :: l' => match bad_number x with Some n => Some n | None => go l' end
         end) members
  | _ => None
  end.

(** *** [json.Unmarshal(data, &rawMap)] with [rawMap] a [map[string]any] *)

Inductive Error :=
| SyntaxError
(** [Value] names what the document holds: ["array"], ["string"],
    ["number"], ["bool"], or ["number "] followed by a number's text. *)
| UnmarshalTypeError (Value : string).

(** The members of an object as a map: a later member replaces an earlier
    one under the same key. *)
Definition to_map (members : list (string * any)) : gmap string any :=
  foldl (λ m kv, <[kv.1 := kv.2]> m) ∅ members.

(** The document must be valid JSON; an object fills the map, [null]
    leaves it nil (no entry), and any other value is a type error, as is
    a number anywhere inside the object that [float64] cannot hold. *)
Definition Unmarshal_map (data : string) : Error + gmap string any :=
  match parse data with
  | None => inl SyntaxError
  | Some (JObject members) =>
      match bad_number (JObject members) with
      | Some lit => inl (UnmarshalTypeError ("number " +:+ lit))
      | None => inr (to_map members)
      end
  | Some JNull => inr ∅
  | Some (JArray _) => inl (UnmarshalTypeError "array")
  | Some (JString _) => inl (UnmarshalTypeError "string")
  | Some (JNumber _) => inl (UnmarshalTypeError "number")
  | Some (JBool _) => inl (UnmarshalTypeError "bool")
  end.

End json.

(** [json.Unmarshal(data, i)] with [i] a pointer to the payload struct is
    the decoder of the standard library at large (field matching, every
    field type, custom unmarshalers).  The binder ignores its error and only
    keeps the fields it wrote, so it is left abstract: from the body, the
    struct type and the field values before, the field values after. *)
Class StructDecoder `{Floats} := {
  Unmarshal_struct :
    string → list reflect.StructField → list reflect.Value → list reflect.Value;
}.

(** ** Package [echo]: what the binder uses of it *)

Module echo.

(** The message of an [*echo.HTTPError] the binder builds: a fixed text,
    or ["invalid JSON: "] followed by the text of the decoder's error. *)
Inductive Message :=
| Text (s : string)
| InvalidJSON (e : json.Error).

Record HTTPError := { Code : Z; Message_ : Message }.

Definition NewHTTPError (code : Z) (message : Message) : HTTPError :=
  {| Code := code; Message_ := message |}.

(** [echo.Context], an interface: path, query, form and header lookups
    (each the empty string when the name has no value), the outcome of
    reading the request body ([None] when [io.ReadAll] fails), and the
    values kept under [Set]/[Get] keys. *)
Record Context := {
  Param : string → string;
  QueryParam : string → string;
  FormValue : string → string;
  Header_Get : string → string;
  Body : option string;
  store : gmap string (list errs.BindError);
}.

Definition Get (c : Context) (key : string) : option (list errs.BindError) :=
  store c !! key.

Definition Set_ (c : Context) (key : string) (v : list errs.BindError) : Context :=
  {| Param := Param c; QueryParam := QueryParam c; FormValue := FormValue c;
     Header_Get := Header_Get c; Body := Body c;
     store := <[key := v]> (store c) |}.

End echo.

(** ** Package [validator]: a rule violation *)

Module validator.

(** What the binder reads of a [validator.FieldError]: [Field()],
    [Tag()], [Param()] and [Type().Kind()]. *)
Record FieldError := {
  Field : string;
  Tag : string;
  Param : string;
  Kind : reflect.Kind;
}.

End validator.

(** A Go [error] as [BindAndValidate] returns it. *)
Inductive error :=
| EchoHTTPError (e : echo.HTTPError)
| ErrsHTTPError (e : errs.HTTPError).

(** ** Package [regexp]: the patterns of the repository

    The one pattern the repository compiles is, between [^] and [$], a
    sequence of literal bytes and of byte classes repeated a fixed number
    of times.  Such a pattern matches a text in one way at most; the
    classes hold ASCII bytes only, so that matching by bytes and matching
    by runes agree. *)

Module regexp.

Inductive item :=
(** a literal byte *)
| Lit (c : ascii)
(** [[lo1-hi1lo2-hi2...]{n}] *)
| Class (ranges : list (ascii * ascii)) (n : nat).

(** A pattern [^item...item$]. *)
Definition Regexp := list item.

Definition in_class (ranges : list (ascii * ascii)) (c : ascii) : bool :=
  existsb (λ r, in_range r.1 r.2 c) ranges.

(** [n] bytes of the class: what is left of the text after them. *)
Fixpoint match_class (ranges : list (ascii * ascii)) (n : nat) (cs : list ascii)
    : option (list ascii) :=
  match n with
  | O => Some cs
  | S n' =>
      match cs with
      | c :: cs' => if in_class ranges c then match_class ranges n' cs' else None
      | [] => None
      end
  end.

Fixpoint match_items (re : Regexp) (cs : list ascii) : bool :=
  match re with
  | [] => match cs with [] => true | _ => false end
  | Lit c :: re' =>
      match cs with
      | c' :: cs' => Ascii.eqb c c' && match_items re' cs'
      | [] => false
      end
  | Class ranges n :: re' =>
      match match_class ranges n cs with
      | Some cs' => match_items re' cs'
      | None => false
      end
  end.

(** [MatchString] of a compiled pattern. *)
Definition MatchString (re : Regexp) (s : string) : bool :=
  match_items re (bytes s).

End regexp.

(** ** Package [validation] *)

Module validation.

Import reflect(Value, VBool, VInt, VUint, VFloat, VString, VArray, VPointer, VZero).

Definition bindingErrorsKey : string := "binding_errors".

(** *** [parseUUID] *)

Inductive UUIDError :=
| InvalidLength
| ScanFailed (e : fmt.ScanError).

(** The loop [for i := range 16]: [n] rounds are left, [i] is the index. *)
Fixpoint parseUUID_loop (s : string) (n i : nat) (uuid : list Z)
    : list Z * option UUIDError :=
  match n with
  | O => (uuid, None)
  | S n' =>
      match fmt.Sscanf_02x (substring (i * 2) 2 s) with
      | inl err => (uuid, Some (ScanFailed err))
      | inr b => parseUUID_loop s n' (S i) (<[i := b]> uuid)
      end
  end.

(** The array returned with an error holds the bytes scanned before it. *)
Definition parseUUID (s : string) : list Z * option UUIDError :=
  let uuid := replicate 16 0 in
  let s := strings.ReplaceAll s "-" "" in
  if bool_decide (String.length s ≠ 32%nat) then (uuid, Some InvalidLength)
  else parseUUID_loop s 16 0 uuid.

(** *** [IsValidUUID] *)

(** [[0-9a-fA-F]]. *)
Definition hexClass : list (ascii * ascii) :=
  [("0", "9"); ("a", "f"); ("A", "F")]%char.

(** [^[0-9a-fA-F]{8}-[0-9a-fA-F]{4}-[0-9a-fA-F]{4}-[0-9a-fA-F]{4}-[0-9a-fA-F]{12}$] *)
Definition uuidRegex : regexp.Regexp :=
  [ regexp.Class hexClass 8; regexp.Lit "-";
    regexp.Class hexClass 4; regexp.Lit "-";
    regexp.Class hexClass 4; regexp.Lit "-";
    regexp.Class hexClass 4; regexp.Lit "-";
    regexp.Class hexClass 12 ].

Definition IsValidUUID (uuid : string) : bool :=
  regexp.MatchString uuidRegex uuid.

(** *** [createFieldError] *)

Definition createFieldError (fieldName message source : string) : errs.BindError :=
  let fieldName := strings.ToLower fieldName in
  let sel (s : string) := if bool_decide (source = s) then Some fieldName else None in
  {| errs.Field := sel "json";
     errs.Query := sel "query";
     errs.Param := sel "param";
     errs.Form := sel "form";
     errs.Header := sel "header";
     errs.Error := message |}.

(** The literal [errs.BindError{Field: &fieldName, Error: message}]. *)
Definition fieldError (fieldName message : string) : errs.BindError :=
  {| errs.Field := Some fieldName; errs.Query := None; errs.Param := None;
     errs.Form := None; errs.Header := None; errs.Error := message |}.

Section Binder.
Context `{StructDecoder}.

(** *** [bindValue]

    [structField] is the content of the field the [reflect.Value]
    addresses; the result is the error returned (if any) and the
    content of the field afterwards.  The setters are taken to succeed:
    [Set] panics when the value is not assignable to the field (an
    array of 16 elements that are not bytes, a pointer to a named
    string type), which is a fault of the payload type and not of a
    request. *)
Fixpoint bindValue (typ : reflect.rtype) (rawValue : string) (structField : Value)
    : option string * Value :=
  let kind := reflect.KindOf typ in
  (* Handle [16]byte UUID *)
  if bool_decide (kind = reflect.Array) && bool_decide (reflect.Len typ = Some 16) then
    match parseUUID rawValue with
    | (_, Some _) => (Some "invalid UUID format", structField)
    | (parsed, None) => (None, VArray (VUint <$> parsed))
    end
  (* Handle string *)
  else if bool_decide (kind = reflect.String) then
    (None, VString rawValue)
  (* Handle *string *)
  else if bool_decide (kind = reflect.Pointer)
          && bool_decide (reflect.KindOf <$> reflect.Elem typ = Some reflect.String) then
    (None, VPointer (Some (VString rawValue)))
  (* Handle int types *)
  else if (reflect.ord reflect.Int <=? reflect.ord kind)
          && (reflect.ord kind <=? reflect.ord reflect.Int64) then
    match strconv.ParseInt rawValue 10 64 with
    | inl _ => (Some "must be a valid integer", structField)
    | inr intVal => (None, reflect.SetInt kind intVal)
    end
  (* Handle uint types *)
  else if (reflect.ord reflect.Uint <=? reflect.ord kind)
          && (reflect.ord kind <=? reflect.ord reflect.Uint64) then
    match strconv.ParseUint rawValue 10 64 with
    | inl _ => (Some "must be a valid unsigned integer", structField)
    | inr uintVal => (None, reflect.SetUint kind uintVal)
    end
  (* Handle float types *)
  else if bool_decide (kind = reflect.Float32) || bool_decide (kind = reflect.Float64) then
    match ParseFloat rawValue with
    | None => (Some "must be a valid number", structField)
    | Some floatVal => (None, reflect.SetFloat kind floatVal)
    end
  (* Handle bool *)
  else if bool_decide (kind = reflect.Bool) then
    match strconv.ParseBool rawValue with
    | None => (Some "must be a valid boolean", structField)
    | Some boolVal => (None, VBool boolVal)
    end
  (* Handle pointer types *)
  else
    match typ with
    | reflect.TPointer elemType =>
        let newElem := reflect.Zero elemType in
        match bindValue elemType rawValue newElem with
        | (Some err, _) => (Some err, structField)
        | (None, newElem) => (None, VPointer (Some newElem))
        end
    | _ => (Some "unsupported type for binding", structField)
    end.

(** *** [getParamValue] *)

Definition getParamValue (c : echo.Context) (field : reflect.StructField)
    (source : string) : string :=
  let tag := reflect.Get (reflect.Tag field) source in
  if bool_decide (tag = "") || bool_decide (tag = "-") then ""
  else
    let tagName := hd "" (strings.Split tag ",") in
    if bool_decide (source = "param") then echo.Param c tagName
    else if bool_decide (source = "query") then echo.QueryParam c tagName
    else if bool_decide (source = "form") then echo.FormValue c tagName
    else if bool_decide (source = "header") then echo.Header_Get c tagName
    else "".

(** *** [BindParams] *)

(** The inner loop over the sources: the first source with a non-empty
    value is bound, and the loop is left. *)
Fixpoint BindParams_sources (c : echo.Context) (field : reflect.StructField)
    (fieldVal : Value) (sources : list string) : Value * list errs.BindError :=
  match sources with
  | [] => (fieldVal, [])
  | source :: sources' =>
      let rawValue := getParamValue c field source in
      if bool_decide (rawValue ≠ "") then
        match bindValue (reflect.Type_ field) rawValue fieldVal with
        | (Some err, fieldVal') =>
            (fieldVal', [createFieldError (reflect.Name field) err source])
        | (None, fieldVal') => (fieldVal', [])
        end
      else BindParams_sources c field fieldVal sources'
  end.

Definition sources : list string := ["param"; "query"; "form"; "header"].

(** One round of the loop over the fields. *)
Definition BindParams_field (c : echo.Context) (field : reflect.StructField)
    (fieldVal : Value) : Value * list errs.BindError :=
  if negb (reflect.CanSet field) then (fieldVal, [])
  else BindParams_sources c field fieldVal sources.

(** The loop over the fields, on the struct type [typ] and the struct
    value [val] (a value per field), with the errors collected so far. *)
Fixpoint BindParams_loop (c : echo.Context) (typ : list reflect.StructField)
    (val : list Value) (errors : list errs.BindError)
    : list Value * list errs.BindError :=
  match typ, val with
  | field :: typ', fieldVal :: val' =>
      let '(fieldVal', errs) := BindParams_field c field fieldVal in
      let '(val'', errors') := BindParams_loop c typ' val' (errors ++ errs) in
      (fieldVal' :: val'', errors')
  | _, _ => (val, errors)
  end.

Definition BindParams (c : echo.Context) (typ : list reflect.StructField)
    (val : list Value) : list Value * list errs.BindError :=
  BindParams_loop c typ val [].

(** *** The structure of the JSON body *)

Definition getJSONType (v : json.any) : string :=
  match v with
  | json.JString _ => "string"
  | json.JNumber _ => "number"
  | json.JBool _ => "boolean"
  | json.JArray _ => "array"
  | json.JObject _ => "object"
  | json.JNull => "null"
  end.

Definition getTypeString (t : reflect.rtype) : string :=
  match reflect.KindOf t with
  | reflect.String => "string"
  | reflect.Int | reflect.Int8 | reflect.Int16 | reflect.Int32 | reflect.Int64
  | reflect.Uint | reflect.Uint8 | reflect.Uint16 | reflect.Uint32 | reflect.Uint64
  | reflect.Float32 | reflect.Float64 => "number"
  | reflect.Bool => "boolean"
  | reflect.Slice | reflect.Array => "array"
  | reflect.Struct | reflect.Map => "object"
  | _ => reflect.TypeString t
  end.

Definition isTypeCompatible (expectedType : reflect.rtype) (actualValue : json.any)
    : bool :=
  let actualType := getJSONType actualValue in
  match reflect.KindOf expectedType with
  | reflect.String => bool_decide (actualType = "string")
  | reflect.Int | reflect.Int8 | reflect.Int16 | reflect.Int32 | reflect.Int64
  | reflect.Uint | reflect.Uint8 | reflect.Uint16 | reflect.Uint32 | reflect.Uint64
  | reflect.Float32 | reflect.Float64 => bool_decide (actualType = "number")
  | reflect.Bool => bool_decide (actualType = "boolean")
  | reflect.Slice | reflect.Array => bool_decide (actualType = "array")
  | reflect.Struct | reflect.Map => bool_decide (actualType = "object")
  | _ => true
  end.

(** One round of the loop of [getJSONFields]. *)
Definition getJSONFields_field (fields : gmap string reflect.rtype)
    (field : reflect.StructField) : gmap string reflect.rtype :=
  let tag := reflect.Get (reflect.Tag field) in
  (* Skip non-JSON fields *)
  if bool_decide (tag "param" ≠ "") || bool_decide (tag "query" ≠ "")
     || bool_decide (tag "form" ≠ "") || bool_decide (tag "header" ≠ "")
  then fields
  else
    let jsonTag := tag "json" in
    if bool_decide (jsonTag = "") || bool_decide (jsonTag = "-") then fields
    else
      let fieldName := hd "" (strings.Split jsonTag ",") in
      let fieldType := reflect.Type_ field in
      let fieldType :=
        match fieldType with
        | reflect.TPointer elem => elem
        | _ => fieldType
        end in
      <[fieldName := fieldType]> fields.

Definition getJSONFields (typ : list reflect.StructField)
    : gmap string reflect.rtype :=
  foldl getJSONFields_field ∅ typ.

(** One round of the loop of [validateJSONStructure]. *)
Definition validateJSONStructure_entry (validFields : gmap string reflect.rtype)
    (errors : list errs.BindError) (entry : string * json.any)
    : list errs.BindError :=
  let '(fieldName, rawValue) := entry in
  match validFields !! fieldName with
  | None => errors ++ [fieldError fieldName "unknown field"]
  | Some expectedType =>
      (* Check type compatibility *)
      if negb (isTypeCompatible expectedType rawValue) then
        let actualType := getJSONType rawValue in
        let expectedStr := getTypeString expectedType in
        errors ++ [fieldError fieldName
                     ("expected " +:+ expectedStr +:+ " but got " +:+ actualType)]
      else errors
  end.

(** [for fieldName, rawValue := range rawMap]: Go leaves the order in
    which a map is ranged over unspecified, and the runtime varies it
    from one loop to the next.  [entries] is the order of this run. *)
Definition validateJSONStructure (typ : list reflect.StructField)
    (entries : list (string * json.any)) : list errs.BindError :=
  let validFields := getJSONFields typ in
  foldl (validateJSONStructure_entry validFields) [] entries.

(** A run ranges over a map in some order of its entries. *)
Definition range_order := gmap string json.any → list (string * json.any).

Definition ranges (ρ : range_order) : Prop :=
  ∀ m, ρ m ≡ₚ map_to_list m.

(** *** [BindBody] *)

Definition BindBody (ρ : range_order) (c : echo.Context)
    (typ : list reflect.StructField) (val : list Value)
    : list Value * list errs.BindError * option echo.HTTPError :=
  match echo.Body c with
  | None =>
      (val, [], Some (echo.NewHTTPError 400 (echo.Text "failed to read request body")))
  | Some bodyBytes =>
      if bool_decide (String.length bodyBytes = 0%nat) then (val, [], None)
      else
        match json.Unmarshal_map bodyBytes with
        | inl err => (val, [], Some (echo.NewHTTPError 400 (echo.InvalidJSON err)))
        | inr rawMap =>
            (* Validate structure *)
            let errors := validateJSONStructure typ (ρ rawMap) in
            (* Still unmarshal what we can *)
            (Unmarshal_struct bodyBytes typ val, errors, None)
        end
  end.

(** *** [Bind]

    The struct value and the context after the call, and the error
    returned. *)
Definition Bind (ρ : range_order) (typ : list reflect.StructField)
    (val : list Value) (c : echo.Context)
    : list Value * echo.Context * option echo.HTTPError :=
  let allErrors := [] in
  (* Bind params (path + query + form + header) *)
  let '(val, paramErrs) := BindParams c typ val in
  let allErrors := allErrors ++ paramErrs in
  (* Bind JSON body *)
  let '(val, bodyErrs, err) := BindBody ρ c typ val in
  match err with
  | Some err => (val, c, Some err) (* malformed JSON *)
  | None =>
      let allErrors := allErrors ++ bodyErrs in
      if bool_decide (0 < length allErrors)%nat
      then (val, echo.Set_ c bindingErrorsKey allErrors, None)
      else (val, c, None)
  end.

(** *** [BindAndValidate] *)

(** [Validatable], an interface: a payload has a struct type and a
    [Validate] method, which reports the rule violations of the bound
    value (none when it returns nil, or an error that is no
    [validator.ValidationErrors]). *)
Record Validatable := {
  typ : list reflect.StructField;
  Validate : list Value → list validator.FieldError;
}.

Fixpoint getFieldSource (typ : list reflect.StructField) (fieldName : string)
    : string :=
  match typ with
  | [] => "json"
  | field :: typ' =>
      if bool_decide (reflect.Name field = fieldName) then
        let tag := reflect.Get (reflect.Tag field) in
        if bool_decide (tag "param" ≠ "") then "param"
        else if bool_decide (tag "query" ≠ "") then "query"
        else if bool_decide (tag "form" ≠ "") then "form"
        else if bool_decide (tag "header" ≠ "") then "header"
        else "json"
      else getFieldSource typ' fieldName
  end.

Definition formatValidationMessage (err : validator.FieldError) : string :=
  let tag := validator.Tag err in
  let param := validator.Param err in
  let is_string := bool_decide (validator.Kind err = reflect.String) in
  if bool_decide (tag = "required") then "is required"
  else if bool_decide (tag = "min") then
    if is_string then "must be at least " +:+ param +:+ " characters"
    else "must be at least " +:+ param
  else if bool_decide (tag = "max") then
    if is_string then "must not exceed " +:+ param +:+ " characters"
    else "must not exceed " +:+ param
  else if bool_decide (tag = "oneof") then "must be one of: " +:+ param
  else if bool_decide (tag = "email") then "must be a valid email address"
  else if bool_decide (tag = "e164") then
    "must be a valid phone number with country code"
  else if bool_decide (tag = "uuid") then "must be a valid UUID"
  else if bool_decide (tag = "uuidList") then
    "must be a comma-separated list of valid UUIDs"
  else if bool_decide (param ≠ "") then
    strings.ToLower (validator.Field err) +:+ ": " +:+ tag +:+ ":" +:+ param
  else strings.ToLower (validator.Field err) +:+ ": " +:+ tag.

(** Track which fields have binding errors: one round of the loop. *)
Definition trackBindingError (fieldsWithBindingErrors : gmap string bool)
    (bindErr : errs.BindError) : gmap string bool :=
  let mark (sel : option string) (m : gmap string bool) :=
    match sel with Some name => <[name := true]> m | None => m end in
  mark (errs.Header bindErr)
    (mark (errs.Form bindErr)
       (mark (errs.Field bindErr)
          (mark (errs.Query bindErr)
             (mark (errs.Param bindErr) fieldsWithBindingErrors)))).

(** One round of the loop over the rule violations. *)
Definition appendRuleError (typ : list reflect.StructField)
    (fieldsWithBindingErrors : gmap string bool)
    (allErrors : list errs.BindError) (valErr : validator.FieldError)
    : list errs.BindError :=
  let fieldName := strings.ToLower (validator.Field valErr) in
  (* Skip validation error if this field already has a binding error *)
  if default false (fieldsWithBindingErrors !! fieldName) then allErrors
  else
    let source := getFieldSource typ (validator.Field valErr) in
    let msg := formatValidationMessage valErr in
    allErrors ++ [createFieldError (validator.Field valErr) msg source].

Definition BindAndValidate (ρ : range_order) (c : echo.Context)
    (payload : Validatable) (val : list Value)
    : list Value * echo.Context * option error :=
  let allErrors := [] in
  (* Uses CustomBinder as defined in the router *)
  match Bind ρ (typ payload) val c with
  | (val, c, Some httpErr) => (val, c, Some (EchoHTTPError httpErr))
  | (val, c, None) =>
      (* Retrieve any binding errors from context *)
      let fieldsWithBindingErrors := ∅ in
      let '(allErrors, fieldsWithBindingErrors) :=
        match echo.Get c bindingErrorsKey with
        | Some bindingErrs =>
            (allErrors ++ bindingErrs,
             foldl trackBindingError fieldsWithBindingErrors bindingErrs)
        | None => (allErrors, fieldsWithBindingErrors)
        end in
      (* Now validate the successfully bound values *)
      let allErrors :=
        foldl (appendRuleError (typ payload) fieldsWithBindingErrors)
          allErrors (Validate payload val) in
      if bool_decide (0 < length allErrors)%nat then
        (val, c, Some (ErrsHTTPError
                         (errs.NewUnprocessableError "Validation failed" true None allErrors)))
      else (val, c, None)
  end.

(** *** Vocabulary of the properties below *)

(** The coercion of a field fails: its round of [BindParams] reports an
    error. *)
Definition coercion_fails (c : echo.Context)
    (fv : reflect.StructField * Value) : bool :=
  bool_decide ((BindParams_field c fv.1 fv.2).2 ≠ []).

(** A key of the body fails the structural check: it is unknown, or its
    value has the wrong coarse type. *)
Definition key_fails (typ : list reflect.StructField)
    (entry : string * json.any) : bool :=
  match getJSONFields typ !! entry.1 with
  | None => true
  | Some expectedType => negb (isTypeCompatible expectedType entry.2)
  end.

(** The key under which a JSON-bound field is read from the body. *)
Definition json_name (field : reflect.StructField) : option string :=
  let tag := reflect.Get (reflect.Tag field) in
  if bool_decide (tag "param" ≠ "") || bool_decide (tag "query" ≠ "")
     || bool_decide (tag "form" ≠ "") || bool_decide (tag "header" ≠ "")
  then None
  else if bool_decide (tag "json" = "") || bool_decide (tag "json" = "-") then None
  else Some (hd "" (strings.Split (tag "json") ",")).

(** The declared type of a field with one pointer wrapper removed. *)
Definition unwrapped (field : reflect.StructField) : reflect.rtype :=
  match reflect.Type_ field with
  | reflect.TPointer elem => elem
  | t => t
  end.

(** The binding errors a context holds. *)
Definition binding_errors (c : echo.Context) : list errs.BindError :=
  default [] (echo.Get c bindingErrorsKey).

End Binder.

(** The location selectors of an error, and how many of them are set. *)
Definition selectors (e : errs.BindError) : list (option string) :=
  [errs.Field e; errs.Query e; errs.Param e; errs.Form e; errs.Header e].

Definition populated (e : errs.BindError) : nat :=
  length (filter is_Some (selectors e)).

(** The name an error carries, under whichever selector is set. *)
Definition located_name (e : errs.BindError) : option string :=
  hd None (filter is_Some (selectors e)).

(** The coarse JSON type the structural check expects for a declared
    type, for the kinds it classifies. *)
Definition coarse_type (t : reflect.rtype) : option string :=
  match reflect.KindOf t with
  | reflect.String => Some "string"
  | reflect.Int | reflect.Int8 | reflect.Int16 | reflect.Int32 | reflect.Int64
  | reflect.Uint | reflect.Uint8 | reflect.Uint16 | reflect.Uint32 | reflect.Uint64
  | reflect.Float32 | reflect.Float64 => Some "number"
  | reflect.Bool => Some "boolean"
  | reflect.Slice | reflect.Array => Some "array"
  | reflect.Struct | reflect.Map => Some "object"
  | _ => None
  end.

(** A string of hexadecimal digits, and the byte two such digits spell. *)
Definition hex_digits (s : string) : bool := forallb json.is_hex (bytes s).

Definition hex_byte (a b : ascii) : Z := json.hexval a * 16 + json.hexval b.

(** The byte two bytes of text spell for [parseUUID], if any: two
    hexadecimal digits spell their value; one hexadecimal digit followed
    by another byte spells the value of the digit alone; a blank other
    than a newline followed by a hexadecimal digit spells the value of
    that digit; nothing else spells a byte. *)
Definition scanned_byte (a b : ascii) : option Z :=
  if json.is_hex a then
    Some (if json.is_hex b then hex_byte a b else json.hexval a)
  else if fmt.isSpace a && negb (Ascii.eqb a "010") && json.is_hex b then
    Some (json.hexval b)
  else None.

(** The types [bindValue] has a case for: strings, booleans, integers and
    floats of every width, arrays of sixteen elements, and pointers to
    such types. *)
Fixpoint bindable (t : reflect.rtype) : bool :=
  match t with
  | reflect.TPointer elem => bindable elem
  | reflect.TArray n _ => bool_decide (n = 16)
  | reflect.TBool | reflect.TString
  | reflect.TInt | reflect.TInt8 | reflect.TInt16 | reflect.TInt32 | reflect.TInt64
  | reflect.TUint | reflect.TUint8 | reflect.TUint16 | reflect.TUint32
  | reflect.TUint64
  | reflect.TFloat32 | reflect.TFloat64 => true
  | _ => false
  end.

End validation.

(** ** Worked requests

    The requests used to exercise the binder: the payload types bind no
    floating-point field, and in each request but one the body holds
    nothing that the struct decoder of the standard library would change
    in a fresh payload (the body is empty, is rejected before decoding, or
    only has keys that are unknown to the payload, of the wrong type for
    their field, or null).  The one request whose body is decoded into a
    field, [bad_age_and_body_age], goes with a decoder of its own,
    [age_decoder]. *)

Module Examples.

(** No field of the payloads below is a float. *)
Definition floats : Floats :=
  {| float64 := unit; float64_zero := tt;
     ParseFloat := λ _, None; to_float32 := λ x, x |}.

(** The decoder on the bodies below: no field is written. *)
Definition decoder : @StructDecoder floats :=
  {| Unmarshal_struct := λ _ _ val, val |}.

(** A body with single quotes standing for the double quotes of JSON. *)
Definition json_text (s : string) : string :=
  strings.ReplaceAll s "'" (String "034" EmptyString).

(** [struct { Age int8 `query:"age"` }] *)
Definition Aged : list reflect.StructField :=
  [ {| reflect.Name := "Age"; reflect.Type_ := reflect.TInt8;
       reflect.Tag := [("query", "age")] |} ].

(** [json.Unmarshal] of the body [{"Age":7}] into a struct whose one
    field is an [Age int8] with no json tag, as [Aged] is: the field is
    read from the key that is its Go name, and 7 is stored in it.  (On
    another body or type this instance leaves the struct alone; it is
    used on this body and type only.) *)
Definition age_decoder : @StructDecoder floats :=
  {| Unmarshal_struct := λ body typ val,
       match typ with
       | [f] =>
           if bool_decide (body = json_text "{'Age':7}")
              && bool_decide (reflect.Name f = "Age")
              && bool_decide (reflect.Type_ f = reflect.TInt8)
              && bool_decide (reflect.Get (reflect.Tag f) "json" = "")
           then [reflect.VInt 7] else val
       | _ => val
       end |}.

(** The value of the first pair under [name], the empty string when there
    is none. *)
Fixpoint lookup (kvs : list (string * string)) (name : string) : string :=
  match kvs with
  | [] => ""
  | (k, v) :: kvs' => if decide (k = name) then v else lookup kvs' name
  end.

(** A request: its path, query, form and header values and its body. *)
Definition request (param query form header : list (string * string))
    (body : string) : echo.Context :=
  {| echo.Param := lookup param;
     echo.QueryParam := lookup query;
     echo.FormValue := lookup form;
     echo.Header_Get := lookup header;
     echo.Body := Some body;
     echo.store := ∅ |}.

Definition field (name : string) (t : reflect.rtype) (tag : reflect.StructTag)
    : reflect.StructField :=
  {| reflect.Name := name; reflect.Type_ := t; reflect.Tag := tag |}.

(** A fresh struct value. *)
Definition fresh (typ : list reflect.StructField) : list (@reflect.Value floats) :=
  (λ f, reflect.Zero (reflect.Type_ f)) <$> typ.

(** [struct { ID [16]byte `param:"id"`; Age int8 `query:"age" header:"X-Age"`;
    Name string `json:"name"`; Nick *string `json:"nick,omitempty"` }] *)
Definition Profile : list reflect.StructField :=
  [ field "ID" (reflect.TArray 16 reflect.TUint8) [("param", "id")];
    field "Age" reflect.TInt8 [("query", "age"); ("header", "X-Age")];
    field "Name" reflect.TString [("json", "name")];
    field "Nick" (reflect.TPointer reflect.TString) [("json", "nick,omitempty")] ].

(** [struct { DueDate string `json:"dueDate" validate:"required"` }] *)
Definition Todo : list reflect.StructField :=
  [ field "DueDate" reflect.TString [("json", "dueDate"); ("validate", "required")] ].

(** The [Validate] method of [Todo]: the rule [required] on [DueDate]. *)
Definition Todo_Validate (val : list (@reflect.Value floats))
    : list validator.FieldError :=
  match val with
  | [reflect.VString EmptyString] =>
      [ {| validator.Field := "DueDate"; validator.Tag := "required";
           validator.Param := ""; validator.Kind := reflect.String |} ]
  | _ => []
  end.

Definition TodoPayload : @validation.Validatable floats :=
  {| validation.typ := Todo; validation.Validate := Todo_Validate |}.

(** The [Validate] method of [Profile]: the rule [required] on [Age] and
    on [Name]. *)
Definition Profile_Validate (val : list (@reflect.Value floats))
    : list validator.FieldError :=
  let required name kind :=
    {| validator.Field := name; validator.Tag := "required";
       validator.Param := ""; validator.Kind := kind |} in
  match val with
  | [_; age; name; _] =>
      match age with
      | reflect.VInt 0 => [required "Age" reflect.Int8]
      | _ => []
      end
      ++ match name with
         | reflect.VString EmptyString => [required "Name" reflect.String]
         | _ => []
         end
  | _ => []
  end.

Definition ProfilePayload : @validation.Validatable floats :=
  {| validation.typ := Profile; validation.Validate := Profile_Validate |}.

(** A bad path id and a bad query age, with a body whose [name] is a
    number, whose [nick] is null and whose [extra] is unknown. *)
Definition five_failures : echo.Context :=
  request [("id", "not-a-uuid")] [("age", "x")] [] []
    (json_text "{'name':5,'extra':1,'nick':null}").

(** An age in the query and another in a header. *)
Definition two_ages : echo.Context :=
  request [] [("age", "7")] [] [("X-Age", "9")] "".

(** A bad query age and no body. *)
Definition bad_age : echo.Context := request [] [("age", "abc")] [] [] "".

(** A bad query age, and an age in the body under the field's Go name. *)
Definition bad_age_and_body_age : echo.Context :=
  request [] [("age", "abc")] [] [] (json_text "{'Age':7}").

(** A request with no parameter and no body. *)
Definition no_parameters : echo.Context := request [] [] [] [] "".

(** A body whose [name] is a number. *)
Definition name_number : echo.Context :=
  request [] [] [] [] (json_text "{'name':5}").

(** Bodies: two unknown keys; an unknown key with a capital; an array; a
    truncated object; a number where [dueDate] wants a string. *)
Definition two_unknown_keys : echo.Context :=
  request [] [] [] [] (json_text "{'a':1,'b':2}").
Definition capital_key : echo.Context :=
  request [] [] [] [] (json_text "{'Extra':1}").
Definition array_body : echo.Context := request [] [] [] [] "[]".

Definition truncated_body : echo.Context :=
  request [] [] [] [] (json_text "{'a':").
Definition due_date_number : echo.Context :=
  request [] [] [] [] (json_text "{'dueDate':5}").

(** Two orders in which a run may range over a map. *)
Definition ascending : validation.range_order := map_to_list.
Definition descending : validation.range_order := λ m, reverse (map_to_list m).

End Examples.

(** * Properties of the binder *)

Section BinderProperties.
Context `{StructDecoder}.

Implicit Types (c : echo.Context) (typ : list reflect.StructField)
  (val : list reflect.Value) (field : reflect.StructField).

(** ** Scalar coercion *)

(** Every path of [bindValue] that returns an error returns before any
    setter is called. *)
Lemma bindValue_failure_keeps t rawValue structField err v' :
  validation.bindValue t rawValue structField = (Some err, v') →
  v' = structField.
Proof.
  revert structField err v'.
  induction t; intros structField err v'; cbn [validation.bindValue];
    try (cbn; intros [= <- <-]; reflexivity);
    try (cbn; repeat case_match; intros [= <- <-]; reflexivity);
    try (cbn; repeat case_match; congruence).
Qed.

(** A round of the source loop reports at most one error, and reports one
    exactly when [bindValue] failed on the value it resolved. *)
Lemma BindParams_sources_cases c field fieldVal srcs :
  validation.BindParams_sources c field fieldVal srcs = (fieldVal, [])
  ∨ ∃ source rawValue,
      source ∈ srcs ∧ rawValue ≠ "" ∧
      validation.getParamValue c field source = rawValue ∧
      ((∃ v', validation.bindValue (reflect.Type_ field) rawValue fieldVal = (None, v')
             ∧ validation.BindParams_sources c field fieldVal srcs = (v', []))
       ∨ (∃ err, validation.bindValue (reflect.Type_ field) rawValue fieldVal
                   = (Some err, fieldVal)
             ∧ validation.BindParams_sources c field fieldVal srcs
               = (fieldVal, [validation.createFieldError (reflect.Name field) err source]))).
Proof.
  induction srcs as [|source srcs IH]; [by left|].
  cbn [validation.BindParams_sources].
  case_bool_decide as Hraw.
  - right. exists source, (validation.getParamValue c field source).
    split; [by left|]. split; [done|]. split; [done|].
    destruct (validation.bindValue _ _ _) as [[err|] v'] eqn:Hb.
    + right. exists err.
      apply bindValue_failure_keeps in Hb as Hv. subst v'. done.
    + left. by exists v'.
  - destruct IH as [IH|(s & r & Hin & Hne & Hget & IH)]; [by left|].
    right. exists s, r. split; [by right|]. done.
Qed.

Lemma BindParams_field_cases c field fieldVal :
  validation.BindParams_field c field fieldVal = (fieldVal, [])
  ∨ (∃ v', validation.BindParams_field c field fieldVal = (v', []))
  ∨ ∃ source err,
      source ∈ validation.sources ∧
      validation.BindParams_field c field fieldVal
      = (fieldVal, [validation.createFieldError (reflect.Name field) err source]).
Proof.
  unfold validation.BindParams_field. destruct (reflect.CanSet field); [|by left].
  cbn [negb].
  destruct (BindParams_sources_cases c field fieldVal validation.sources)
    as [?|(s & r & Hin & _ & _ & [(v' & _ & ->)|(err & _ & ->)])]; eauto 7.
Qed.

(** A failed coercion leaves the field as it was. *)
Lemma BindParams_field_failure_keeps c field fieldVal :
  (validation.BindParams_field c field fieldVal).2 ≠ [] →
  (validation.BindParams_field c field fieldVal).1 = fieldVal.
Proof.
  destruct (BindParams_field_cases c field fieldVal)
    as [->|[(v' & ->)|(s & err & _ & ->)]]; done.
Qed.


(** The loop over the fields treats each field on its own: the values
    after it are the fields' own rounds, and the errors are theirs in the
    order of the fields. *)
Lemma BindParams_loop_spec c typ val errors :
  validation.BindParams_loop c typ val errors
  = (zip_with (λ f v, (validation.BindParams_field c f v).1) typ val
       ++ drop (length typ) val,
     errors ++ concat (zip_with (λ f v, (validation.BindParams_field c f v).2) typ val)).
Proof.
  revert val errors. induction typ as [|field typ IH]; intros val errors.
  - cbn. by rewrite drop_0, app_nil_r.
  - destruct val as [|fieldVal val]; cbn [validation.BindParams_loop].
    { cbn. by rewrite app_nil_r. }
    destruct (validation.BindParams_field c field fieldVal) as [v' es] eqn:Hf.
    rewrite IH. cbn. rewrite Hf. cbn. by rewrite <- app_assoc.
Qed.

Lemma BindParams_spec c typ val :
  validation.BindParams c typ val
  = (zip_with (λ f v, (validation.BindParams_field c f v).1) typ val
       ++ drop (length typ) val,
     concat (zip_with (λ f v, (validation.BindParams_field c f v).2) typ val)).
Proof. unfold validation.BindParams. by rewrite BindParams_loop_spec. Qed.

Lemma BindParams_lookup c typ val i field fieldVal :
  typ !! i = Some field → val !! i = Some fieldVal →
  (validation.BindParams c typ val).1 !! i
  = Some (validation.BindParams_field c field fieldVal).1.
Proof.
  intros Hf Hv. rewrite BindParams_spec. cbn [fst].
  rewrite lookup_app_l.
  - rewrite lookup_zip_with. by rewrite Hf, Hv.
  - rewrite length_zip_with. apply lookup_lt_Some in Hf, Hv. lia.
Qed.


(** C8, as amended.  A field whose coercion fails,
    whatever its declared kind (arrays of 16 bytes, integers, floats,
    booleans, pointers to any of them at any depth), keeps its zero value:
    [bindValue] returns the field as it found it, so does the field's round
    of [BindParams], and the struct value [Bind] leaves has the zero value
    at that field whenever decoding the body does not itself store into
    it (the decoder reads every exported field that is not tagged [-] for
    JSON, the fields bound from a source included). *)
Theorem no_partial_field_corruption ρ c typ val i field :
  typ !! i = Some field →
  val !! i = Some (reflect.Zero (reflect.Type_ field)) →
  validation.coercion_fails c (field, reflect.Zero (reflect.Type_ field)) = true →
  (∀ rawValue err v',
     validation.bindValue (reflect.Type_ field) rawValue
       (reflect.Zero (reflect.Type_ field)) = (Some err, v') →
     v' = reflect.Zero (reflect.Type_ field))
  ∧ (validation.BindParams c typ val).1 !! i
    = Some (reflect.Zero (reflect.Type_ field))
  ∧ ((∀ body, echo.Body c = Some body →
        Unmarshal_struct body typ (validation.BindParams c typ val).1 !! i
        = (validation.BindParams c typ val).1 !! i) →
     (validation.Bind ρ typ val c).1.1 !! i
     = Some (reflect.Zero (reflect.Type_ field))).
Proof.
  intros Hf Hv Hfail.
  assert ((validation.BindParams c typ val).1 !! i
          = Some (reflect.Zero (reflect.Type_ field))) as Hkept.
  { rewrite (BindParams_lookup _ _ _ _ _ _ Hf Hv). f_equal.
    apply BindParams_field_failure_keeps.
    unfold validation.coercion_fails in Hfail. by apply bool_decide_eq_true in Hfail. }
  split; [|split; [done|]].
  - intros rawValue err v'. apply bindValue_failure_keeps.
  - intros Hdec. unfold validation.Bind, validation.BindBody.
    destruct (validation.BindParams c typ val) as [val1 paramErrs].
    cbn [fst] in Hkept, Hdec.
    destruct (echo.Body c) as [bodyBytes|]; [|done].
    case_bool_decide; [by case_bool_decide|].
    destruct (json.Unmarshal_map bodyBytes); [done|].
    case_bool_decide; cbn [fst]; by rewrite Hdec.
Qed.

(** ** The source resolver *)


End BinderProperties.

(** ** Integers *)

Section Integers.

Lemma in_range_spec lo hi c :
  in_range lo hi c = true ↔ byte_val lo ≤ byte_val c ≤ byte_val hi.
Proof. unfold in_range. rewrite andb_true_iff, !Z.leb_le. tauto. Qed.

Lemma is_digit_spec c : json.is_digit c = true ↔ 48 ≤ byte_val c ≤ 57.
Proof. unfold json.is_digit. by rewrite in_range_spec. Qed.

Lemma digit_nonneg c d : strconv.digit c = Some d → 0 ≤ d.
Proof.
  unfold strconv.digit.
  destruct (in_range "0" "9" c) eqn:H09.
  - apply in_range_spec in H09. cbn in H09. intros [= <-]. cbn. lia.
  - destruct (in_range "a" "z" (lower c)) eqn:Haz; [|done].
    apply in_range_spec in Haz. cbn in Haz. intros [= <-]. cbn. lia.
Qed.

Lemma ParseUint_go_range cs base maxVal n m :
  0 ≤ base → 0 ≤ n ≤ maxVal →
  strconv.ParseUint_go cs base maxVal n = inr m → 0 ≤ m ≤ maxVal.
Proof.
  intros Hbase. revert n. induction cs as [|c cs IH]; intros n Hn; cbn.
  - intros [= <-]. done.
  - destruct (strconv.digit c) as [d|] eqn:Hd; [|done].
    apply digit_nonneg in Hd.
    destruct (base <=? d); [done|].
    destruct (maxVal <? n * base + d) eqn:Hmax; [done|].
    apply Z.ltb_ge in Hmax. apply IH. nia.
Qed.

Lemma ParseUint_range s base bitSize m :
  0 ≤ base → 0 ≤ bitSize →
  strconv.ParseUint s base bitSize = inr m → 0 ≤ m < 2 ^ bitSize.
Proof.
  intros Hbase Hbits. unfold strconv.ParseUint.
  destruct (bytes s) as [|c cs]; [done|].
  intros Hgo. apply ParseUint_go_range in Hgo; [lia|done|].
  assert (0 < 2 ^ bitSize) by (apply Z.pow_pos_nonneg; lia). lia.
Qed.

(** What [ParseInt] returns is a 64-bit signed integer. *)
Lemma ParseInt_range s n :
  strconv.ParseInt s 10 64 = inr n → - 2 ^ 63 ≤ n < 2 ^ 63.
Proof.
  unfold strconv.ParseInt. destruct s as [|c s]; [done|].
  cbn zeta.
  destruct (strconv.ParseUint _ 10 64) as [e|un] eqn:Hun; [done|].
  apply ParseUint_range in Hun; [|lia..].
  replace (64 - 1) with 63 by lia.
  destruct (Ascii.eqb c "-"); cbn [negb andb].
  - destruct (2 ^ 63 <? un) eqn:Hc; [done|]. apply Z.ltb_ge in Hc.
    intros [= <-]. lia.
  - destruct (2 ^ 63 <=? un) eqn:Hc; [done|]. apply Z.leb_gt in Hc.
    intros [= <-]. lia.
Qed.

Lemma digits_val_mono cs n : 0 ≤ n → Forall (λ c, json.is_digit c = true) cs →
  n ≤ json.digits_val cs n.
Proof.
  intros Hn Hcs. revert n Hn. induction Hcs as [|c cs Hc _ IH]; intros n Hn; cbn; [lia|].
  apply is_digit_spec in Hc.
  specialize (IH (n * 10 + (byte_val c - 48)) ltac:(lia)). lia.
Qed.

Lemma ParseUint_go_digits cs maxVal n :
  Forall (λ c, json.is_digit c = true) cs → 0 ≤ n ≤ maxVal →
  strconv.ParseUint_go cs 10 maxVal n
  = if json.digits_val cs n <=? maxVal then inr (json.digits_val cs n)
    else inl strconv.ErrRange.
Proof.
  intros Hcs. revert n. induction Hcs as [|c cs Hc Hcs IH]; intros n Hn; cbn.
  - by rewrite (proj2 (Z.leb_le _ _)) by lia.
  - unfold strconv.digit. unfold json.is_digit in Hc. rewrite Hc.
    apply is_digit_spec in Hc.
    change (byte_val "0") with 48.
    rewrite (proj2 (Z.leb_gt _ _)) by lia.
    destruct (maxVal <? n * 10 + (byte_val c - 48)) eqn:Hmax.
    + apply Z.ltb_lt in Hmax.
      rewrite (proj2 (Z.leb_gt _ _)); [done|].
      eapply Z.lt_le_trans; [exact Hmax|]. apply digits_val_mono; [lia|done].
    + apply Z.ltb_ge in Hmax. apply IH. lia.
Qed.

Lemma bytes_str cs : bytes (str cs) = cs.
Proof. apply list_ascii_of_string_of_list_ascii. Qed.

(** On a run of decimal digits, [ParseInt] fails exactly when the number
    is above the largest 64-bit signed integer. *)
Lemma ParseInt_digits c cs :
  Forall (λ c, json.is_digit c = true) (c :: cs) →
  strconv.ParseInt (str (c :: cs)) 10 64
  = if json.digits_val (c :: cs) 0 <? 2 ^ 63 then inr (json.digits_val (c :: cs) 0)
    else inl strconv.ErrRange.
Proof.
  intros Hcs. unfold strconv.ParseInt.
  change (str (c :: cs)) with (String c (str cs)). cbn zeta.
  assert (Ascii.eqb c "-" = false ∧ Ascii.eqb c "+" = false) as [-> ->].
  { inversion Hcs as [|? ? Hc _]; subst. apply is_digit_spec in Hc.
    split; apply Ascii.eqb_neq; intros ->; vm_compute in Hc; intuition congruence. }
  cbn [orb negb andb].
  unfold strconv.ParseUint.
  change (bytes (String c (str cs))) with (c :: bytes (str cs)).
  rewrite bytes_str, ParseUint_go_digits by (done || lia).
  pose proof (digits_val_mono (c :: cs) 0 ltac:(lia) Hcs) as Hpos.
  replace (64 - 1) with 63 by lia.
  destruct (json.digits_val (c :: cs) 0 <=? 2 ^ 64 - 1) eqn:H64.
  - destruct (2 ^ 63 <=? _) eqn:H63.
    + apply Z.leb_le in H63. by rewrite (proj2 (Z.ltb_ge _ _)).
    + apply Z.leb_gt in H63. by rewrite (proj2 (Z.ltb_lt _ _)).
  - apply Z.leb_gt in H64. rewrite (proj2 (Z.ltb_ge _ _)); [done|lia].
Qed.

(** Narrowing to [w] bits keeps exactly the values that fit [w] bits. *)
Lemma wrap_signed_fits w n :
  0 < w → (reflect.wrap_signed w n = n ↔ - 2 ^ (w - 1) ≤ n < 2 ^ (w - 1)).
Proof.
  intros Hw. unfold reflect.wrap_signed.
  assert (2 ^ w = 2 * 2 ^ (w - 1)) as Hpow.
  { rewrite <- Z.pow_succ_r by lia. f_equal. lia. }
  assert (0 < 2 ^ (w - 1)) by (apply Z.pow_pos_nonneg; lia).
  split.
  - intros Heq.
    pose proof (Z.mod_pos_bound (n + 2 ^ (w - 1)) (2 ^ w) ltac:(lia)). lia.
  - intros Hfit. rewrite Z.mod_small by lia. lia.
Qed.

End Integers.

Section SignedIntegers.
Context `{StructDecoder}.

(** C7, as amended.  For a field of any signed-integer kind the raw text
    is parsed in base 10 as a 64-bit signed integer.  Text [ParseInt]
    rejects (no integer, or one outside the 64-bit range) fails with [must
    be a valid integer] and the field is not written.  Any other text is
    stored, converted to the declared width: a value that fits the 64 bits
    but not the declared width is stored wrapped around, and no error is
    reported.  A run of digits is rejected exactly when it denotes a
    number above the largest 64-bit integer. *)
Theorem signed_integer_coercion t rawValue structField :
  reflect.ord reflect.Int ≤ reflect.ord (reflect.KindOf t) ≤ reflect.ord reflect.Int64 →
  let w := reflect.Bits (reflect.KindOf t) in
  match strconv.ParseInt rawValue 10 64 with
  | inl _ =>
      validation.bindValue t rawValue structField
      = (Some "must be a valid integer", structField)
  | inr n =>
      - 2 ^ 63 ≤ n < 2 ^ 63
      ∧ validation.bindValue t rawValue structField
        = (None, reflect.VInt (reflect.wrap_signed w n))
      ∧ (reflect.wrap_signed w n = n ↔ - 2 ^ (w - 1) ≤ n < 2 ^ (w - 1))
  end
  ∧ ∀ c cs,
      Forall (λ c, json.is_digit c = true) (c :: cs) →
      strconv.ParseInt (str (c :: cs)) 10 64
      = if json.digits_val (c :: cs) 0 <? 2 ^ 63
        then inr (json.digits_val (c :: cs) 0)
        else inl strconv.ErrRange.
Proof.
  intros Hkind w. split; [|apply ParseInt_digits].
  destruct t; cbn in Hkind; try lia;
    (destruct (strconv.ParseInt rawValue 10 64) as [e|n] eqn:Hparse;
     [by cbn; rewrite Hparse
     |split; [by apply (ParseInt_range rawValue)|split;
         [by cbn; rewrite Hparse|by apply wrap_signed_fits]]]).
Qed.

End SignedIntegers.

(** ** The structural validator and the binder as a whole *)

Section Aggregation.
Context `{StructDecoder}.

Implicit Types (c : echo.Context) (typ : list reflect.StructField)
  (val : list reflect.Value) (entry : string * json.any).

Lemma validateJSONStructure_entry_app validFields errors entry :
  validation.validateJSONStructure_entry validFields errors entry
  = errors ++ validation.validateJSONStructure_entry validFields [] entry.
Proof.
  destruct entry as [fieldName rawValue]. cbn.
  destruct (validFields !! fieldName); [|done].
  destruct (validation.isTypeCompatible _ _); cbn; [by rewrite app_nil_r|done].
Qed.

(** The loop over the body's entries yields, entry by entry in the order
    they are visited, the error of that entry if it has one. *)
Lemma validateJSONStructure_spec typ entries :
  validation.validateJSONStructure typ entries
  = entries ≫= validation.validateJSONStructure_entry (validation.getJSONFields typ) [].
Proof.
  unfold validation.validateJSONStructure.
  generalize (validation.getJSONFields typ). intros validFields.
  enough (∀ errors,
            foldl (validation.validateJSONStructure_entry validFields) errors entries
            = errors ++ (entries ≫= validation.validateJSONStructure_entry validFields []))
    as Hgen by apply (Hgen []).
  induction entries as [|entry entries IH]; intros errors; cbn.
  - by rewrite app_nil_r.
  - rewrite IH, validateJSONStructure_entry_app. by rewrite <- app_assoc.
Qed.

Lemma validateJSONStructure_entry_cases typ entry :
  let fieldError message :=
    validation.fieldError entry.1 message in
  (validation.key_fails typ entry = false
   ∧ validation.validateJSONStructure_entry (validation.getJSONFields typ) [] entry = [])
  ∨ (validation.key_fails typ entry = true
     ∧ ∃ message,
         validation.validateJSONStructure_entry (validation.getJSONFields typ) [] entry
         = [fieldError message]).
Proof.
  destruct entry as [fieldName rawValue]. unfold validation.key_fails. cbn.
  destruct (validation.getJSONFields typ !! fieldName); [|right; eauto].
  destruct (validation.isTypeCompatible _ _); cbn; [by left|right; eauto].
Qed.

Lemma validateJSONStructure_length typ entries :
  length (validation.validateJSONStructure typ entries)
  = length (filter (λ entry, validation.key_fails typ entry = true) entries).
Proof.
  rewrite validateJSONStructure_spec.
  induction entries as [|entry entries IH]; [done|].
  cbn [mbind list_bind]. rewrite length_app, IH, filter_cons.
  destruct (validateJSONStructure_entry_cases typ entry)
    as [[Hk ->]|[Hk [message ->]]]; rewrite Hk; by case_decide.
Qed.

(** Two orders of visiting the same entries give the same errors, in
    orders that may differ. *)
Lemma validateJSONStructure_Permutation typ entries1 entries2 :
  entries1 ≡ₚ entries2 →
  validation.validateJSONStructure typ entries1
  ≡ₚ validation.validateJSONStructure typ entries2.
Proof. intros Hp. rewrite !validateJSONStructure_spec. by rewrite Hp. Qed.

Lemma length_zero_iff (s : string) : String.length s = 0%nat ↔ s = "".
Proof. by destruct s. Qed.

(** [Bind] step by step: the sourced fields first; then the body, whose
    errors follow those of the fields; the errors are recorded in the
    context unless there is none, or the body is rejected. *)
Lemma Bind_spec ρ typ val c :
  let record errors :=
    if bool_decide (0 < length errors)%nat
    then echo.Set_ c validation.bindingErrorsKey errors else c in
  let '(val1, paramErrs) := validation.BindParams c typ val in
  validation.Bind ρ typ val c
  = match echo.Body c with
    | None =>
        (val1, c,
         Some (echo.NewHTTPError 400 (echo.Text "failed to read request body")))
    | Some body =>
        if bool_decide (body = "") then (val1, record paramErrs, None)
        else
          match json.Unmarshal_map body with
          | inl e => (val1, c, Some (echo.NewHTTPError 400 (echo.InvalidJSON e)))
          | inr rawMap =>
              (Unmarshal_struct body typ val1,
               record (paramErrs ++ validation.validateJSONStructure typ (ρ rawMap)),
               None)
          end
    end.
Proof.
  cbn zeta. unfold validation.Bind, validation.BindBody.
  destruct (validation.BindParams c typ val) as [val1 paramErrs].
  destruct (echo.Body c) as [body|]; [|done].
  rewrite (bool_decide_ext _ _ (length_zero_iff body)).
  cbn [app].
  case_bool_decide; [rewrite app_nil_r; by case_bool_decide|].
  destruct (json.Unmarshal_map body); [done|by case_bool_decide].
Qed.

Lemma elem_of_concat {A} (x : A) (ls : list (list A)) :
  x ∈ concat ls ↔ ∃ l, x ∈ l ∧ l ∈ ls.
Proof.
  induction ls as [|l ls IH]; cbn.
  - split; [by intros ?%elem_of_nil|by intros (l & _ & ?%elem_of_nil)].
  - rewrite elem_of_app, IH. split.
    + intros [?|(l' & ? & ?)]; [exists l; split; [done|by left]|].
      exists l'. split; [done|by right].
    + intros (l' & Hx & [->|?]%elem_of_cons); [by left|right; eauto].
Qed.


(** C6, as amended.  Two runs of [Bind] on the same inputs leave the same
    struct value and return the same error; the errors of the sourced
    fields come first, in the order the fields are declared, and are the
    same in both runs; the structural errors that follow are the same
    errors in both runs, each run listing them in the order in which it
    ranged over the decoded body, which Go does not fix: the two lists are
    permutations of each other. *)
Theorem bind_agrees_up_to_range_order ρ1 ρ2 typ val c :
  validation.ranges ρ1 → validation.ranges ρ2 →
  let record errors :=
    if bool_decide (0 < length errors)%nat
    then echo.Set_ c validation.bindingErrorsKey errors else c in
  ∃ val' err paramErrs structErrs1 structErrs2,
    paramErrs
    = concat (zip_with (λ f v, (validation.BindParams_field c f v).2) typ val)
    ∧ structErrs1 ≡ₚ structErrs2
    ∧ ((err = None
        ∧ validation.Bind ρ1 typ val c = (val', record (paramErrs ++ structErrs1), None)
        ∧ validation.Bind ρ2 typ val c = (val', record (paramErrs ++ structErrs2), None))
       ∨ (err ≠ None
          ∧ validation.Bind ρ1 typ val c = (val', c, err)
          ∧ validation.Bind ρ2 typ val c = (val', c, err))).
Proof.
  intros Hρ1 Hρ2 record.
  pose proof (Bind_spec ρ1 typ val c) as HB1.
  pose proof (Bind_spec ρ2 typ val c) as HB2.
  pose proof (BindParams_spec c typ val) as Hspec.
  cbn zeta in HB1, HB2.
  destruct (validation.BindParams c typ val) as [val1 paramErrs].
  injection Hspec as _ HparamErrs.
  destruct (echo.Body c) as [body|].
  - case_bool_decide.
    + exists val1, None, paramErrs, [], []. rewrite !app_nil_r.
      split; [done|]. split; [done|]. left. done.
    + destruct (json.Unmarshal_map body) as [e|rawMap].
      * exists val1, (Some (echo.NewHTTPError 400 (echo.InvalidJSON e))),
          paramErrs, [], [].
        split; [done|]. split; [done|]. right. done.
      * exists (Unmarshal_struct body typ val1), None, paramErrs,
          (validation.validateJSONStructure typ (ρ1 rawMap)),
          (validation.validateJSONStructure typ (ρ2 rawMap)).
        split; [done|]. split; [|by left].
        apply validateJSONStructure_Permutation.
        by rewrite (Hρ1 rawMap), (Hρ2 rawMap).
  - exists val1,
      (Some (echo.NewHTTPError 400 (echo.Text "failed to read request body"))),
      paramErrs, [], [].
    split; [done|]. split; [done|]. right. done.
Qed.

(** *** The shape of the errors *)

Lemma toLower_byte_idemp a :
  strings.toLower_byte (strings.toLower_byte a) = strings.toLower_byte a.
Proof. by destruct a as [[] [] [] [] [] [] [] []]. Qed.

Lemma ToLower_idemp s : strings.ToLower (strings.ToLower s) = strings.ToLower s.
Proof. induction s as [|a s IH]; cbn; [done|]. by rewrite toLower_byte_idemp, IH. Qed.

Lemma sources_spec s :
  s ∈ validation.sources ↔ s = "param" ∨ s = "query" ∨ s = "form" ∨ s = "header".
Proof. unfold validation.sources. rewrite !elem_of_cons, elem_of_nil. tauto. Qed.

Lemma createFieldError_shape fieldName message source :
  source ∈ validation.sources →
  validation.populated (validation.createFieldError fieldName message source) = 1%nat
  ∧ validation.located_name (validation.createFieldError fieldName message source)
    = Some (strings.ToLower fieldName).
Proof. by intros [-> | [-> | [-> | ->]]]%sources_spec. Qed.

Lemma BindParams_errors_shape c typ val e :
  e ∈ (validation.BindParams c typ val).2 →
  ∃ field source,
    field ∈ typ ∧ source ∈ validation.sources
    ∧ e = validation.createFieldError (reflect.Name field) (errs.Error e) source.
Proof.
  rewrite BindParams_spec. cbn [snd].
  intros (l & He & (i & field & fieldVal & -> & Hf & _)%elem_of_lookup_zip_with)%elem_of_concat.
  destruct (BindParams_field_cases c field fieldVal)
    as [Hn|[(v' & Hn)|(source & err & Hsrc & Herr)]];
    rewrite ?Hn, ?Herr in He; cbn [snd] in He; [by apply elem_of_nil in He..|].
  apply list_elem_of_singleton in He as ->.
  exists field, source. split; [by eapply list_elem_of_lookup_2|]. done.
Qed.

Lemma validateJSONStructure_shape typ entries e :
  e ∈ validation.validateJSONStructure typ entries →
  ∃ entry,
    entry ∈ entries
    ∧ e = validation.fieldError entry.1 (errs.Error e).
Proof.
  rewrite validateJSONStructure_spec.
  intros (entry & He & Hin)%list_elem_of_bind. exists entry. split; [done|].
  destruct (validateJSONStructure_entry_cases typ entry)
    as [[_ Hn]|[_ [message Hn]]]; rewrite Hn in He.
  - by apply elem_of_nil in He.
  - by apply list_elem_of_singleton in He as ->.
Qed.

(** C9, as amended.  Every error [Bind] records has exactly one location
    selector set.  An error of a sourced field has the selector of the
    source the value came from, and carries the Go name of the field in
    lower case.  A structural error has the [Field] selector and carries
    the key as the body spells it, in whatever case that is. *)
Theorem located_errors_well_formed ρ typ val c :
  validation.ranges ρ →
  ∃ val' err allErrors,
    validation.Bind ρ typ val c
    = (val',
       if bool_decide (0 < length allErrors)%nat
       then echo.Set_ c validation.bindingErrorsKey allErrors else c,
       err)
    ∧ ∀ e, e ∈ allErrors →
        validation.populated e = 1%nat
        ∧ ((∃ field source,
              field ∈ typ ∧ source ∈ validation.sources
              ∧ e = validation.createFieldError (reflect.Name field) (errs.Error e) source
              ∧ validation.located_name e = Some (strings.ToLower (reflect.Name field))
              ∧ strings.ToLower (strings.ToLower (reflect.Name field))
                = strings.ToLower (reflect.Name field))
           ∨ (∃ body rawMap key rawValue,
                echo.Body c = Some body
                ∧ json.Unmarshal_map body = inr rawMap
                ∧ rawMap !! key = Some rawValue
                ∧ e = validation.fieldError key (errs.Error e)
                ∧ validation.located_name e = Some key)).
Proof.
  intros Hρ.
  pose proof (Bind_spec ρ typ val c) as HB. cbn zeta in HB.
  pose proof (BindParams_errors_shape c typ val) as Hshape.
  destruct (validation.BindParams c typ val) as [val1 paramErrs].
  cbn [snd] in Hshape.
  assert (∀ e, e ∈ paramErrs →
            validation.populated e = 1%nat
            ∧ ((∃ field source,
                  field ∈ typ ∧ source ∈ validation.sources
                  ∧ e = validation.createFieldError (reflect.Name field) (errs.Error e) source
                  ∧ validation.located_name e = Some (strings.ToLower (reflect.Name field))
                  ∧ strings.ToLower (strings.ToLower (reflect.Name field))
                    = strings.ToLower (reflect.Name field))
               ∨ (∃ body rawMap key rawValue,
                    echo.Body c = Some body
                    ∧ json.Unmarshal_map body = inr rawMap
                    ∧ rawMap !! key = Some rawValue
                    ∧ e = validation.fieldError key (errs.Error e)
                    ∧ validation.located_name e = Some key))) as Hparam.
  { intros e (field & source & Hf & Hs & He)%Hshape.
    destruct (createFieldError_shape (reflect.Name field) (errs.Error e) source Hs)
      as [Hpop Hname].
    rewrite <- He in Hpop, Hname. split; [done|]. left.
    exists field, source. by rewrite ToLower_idemp. }
  destruct (echo.Body c) as [body|] eqn:Hbody.
  - case_bool_decide.
    + exists val1, None, paramErrs. split; [done|]. done.
    + destruct (json.Unmarshal_map body) as [err|rawMap] eqn:Hmap.
      * exists val1, (Some (echo.NewHTTPError 400 (echo.InvalidJSON err))), [].
        split; [done|]. by intros e ?%elem_of_nil.
      * eexists _, None, _. split; [exact HB|].
        intros e [He|He]%elem_of_app; [by apply Hparam|].
        apply validateJSONStructure_shape in He as ([key rawValue] & Hin & He).
        cbn [fst] in He. rewrite (Hρ rawMap) in Hin.
        apply elem_of_map_to_list in Hin.
        split; [by rewrite He|]. right.
        exists body, rawMap, key, rawValue.
        repeat (split; [done|]). by rewrite He.
  - exists val1,
      (Some (echo.NewHTTPError 400 (echo.Text "failed to read request body"))), [].
    split; [done|]. by intros e ?%elem_of_nil.
Qed.

(** *** Null against a declared type *)

Lemma getJSONFields_field_other fields g key :
  validation.json_name g ≠ Some key →
  validation.getJSONFields_field fields g !! key = fields !! key.
Proof.
  unfold validation.json_name, validation.getJSONFields_field. cbn zeta.
  destruct (_ || _ || _ || _); [done|].
  destruct (_ || _); [done|].
  intros Hne. apply lookup_insert_ne. congruence.
Qed.

Lemma getJSONFields_field_self fields field key :
  validation.json_name field = Some key →
  validation.getJSONFields_field fields field !! key
  = Some (validation.unwrapped field).
Proof.
  unfold validation.json_name, validation.getJSONFields_field, validation.unwrapped.
  cbn zeta.
  destruct (_ || _ || _ || _); [done|].
  destruct (_ || _); [done|].
  intros [= <-]. rewrite lookup_insert_eq. by destruct (reflect.Type_ field).
Qed.

(** The type registered under a key is that of the last JSON-bound field
    read under it. *)
Lemma getJSONFields_lookup pre field post key :
  validation.json_name field = Some key →
  (∀ g, g ∈ post → validation.json_name g ≠ Some key) →
  validation.getJSONFields (pre ++ field :: post) !! key
  = Some (validation.unwrapped field).
Proof.
  intros Hname Hpost. unfold validation.getJSONFields.
  rewrite foldl_app. cbn [foldl].
  generalize (foldl validation.getJSONFields_field ∅ pre). intros fields.
  pose proof (getJSONFields_field_self fields field key Hname) as Hself.
  revert Hself. generalize (validation.getJSONFields_field fields field).
  induction post as [|g post IH]; intros fields' Hself; [done|].
  cbn [foldl]. apply IH.
  - intros g' Hg'. apply Hpost. by right.
  - rewrite getJSONFields_field_other; [done|]. apply Hpost. by left.
Qed.

Lemma coarse_type_spec t expected :
  validation.coarse_type t = Some expected →
  validation.getTypeString t = expected
  ∧ validation.isTypeCompatible t json.JNull = false.
Proof.
  unfold validation.coarse_type, validation.getTypeString, validation.isTypeCompatible.
  destruct (reflect.KindOf t); intros [= <-]; done.
Qed.

(** C10 (null is a type mismatch).  For a JSON-bound field whose declared
    type, with a pointer wrapper removed, is classified as string, number,
    boolean, array or object, a body that holds null under the field's key
    gets the error [expected <type> but got null] on that key, in whatever
    order the body is ranged over; pointer fields are no exception.  (The
    key is taken to be read by this field: no later field of the struct
    is bound to the same key.) *)
Theorem null_is_a_type_mismatch ρ pre field post key expected rawMap :
  validation.ranges ρ →
  validation.json_name field = Some key →
  (∀ g, g ∈ post → validation.json_name g ≠ Some key) →
  validation.coarse_type (validation.unwrapped field) = Some expected →
  rawMap !! key = Some json.JNull →
  let typ := pre ++ field :: post in
  let mismatch :=
    validation.fieldError key ("expected " +:+ expected +:+ " but got null") in
  mismatch ∈ validation.validateJSONStructure typ (ρ rawMap)
  ∧ ∀ val c body,
      echo.Body c = Some body → body ≠ "" →
      json.Unmarshal_map body = inr rawMap →
      ∃ val' allErrors,
        validation.Bind ρ typ val c
        = (val', echo.Set_ c validation.bindingErrorsKey allErrors, None)
        ∧ mismatch ∈ allErrors.
Proof.
  intros Hρ Hname Hpost Hcoarse Hnull typ mismatch.
  assert (mismatch ∈ validation.validateJSONStructure typ (ρ rawMap)) as Hin.
  { rewrite validateJSONStructure_spec. apply list_elem_of_bind.
    exists (key, json.JNull). split.
    - cbn. subst typ. rewrite (getJSONFields_lookup pre field post key Hname Hpost).
      apply coarse_type_spec in Hcoarse as [-> ->]. cbn. by left.
    - rewrite (Hρ rawMap). by apply elem_of_map_to_list. }
  split; [done|].
  intros val c body Hbody Hne Hmap.
  pose proof (Bind_spec ρ typ val c) as HB. cbn zeta in HB.
  destruct (validation.BindParams c typ val) as [val1 paramErrs].
  rewrite Hbody, bool_decide_eq_false_2, Hmap in HB by done.
  rewrite bool_decide_eq_true_2 in HB.
  - eexists _, _. split; [exact HB|]. apply elem_of_app. by right.
  - rewrite length_app. apply list_elem_of_In, in_split in Hin as (l1 & l2 & ->).
    rewrite length_app. cbn. lia.
Qed.

(** *** The one abort *)

(** C3, as amended.  For a non-empty body that was read, [Bind] aborts
    with the 400 error [invalid JSON] exactly when [json.Unmarshal] of the
    body into a string-keyed map reports an error, and then it records no
    binding error at all; otherwise it returns no error.  The decoder
    reports an error for every body that is not valid JSON, and also for
    valid JSON whose top-level value is an array, a string, a number or a
    boolean, or is an object holding a number too large for a float64;
    null and every other object are accepted. *)
Theorem malformed_body_aborts ρ typ val c body :
  echo.Body c = Some body → body ≠ "" →
  match json.Unmarshal_map body with
  | inl e =>
      ∃ val', validation.Bind ρ typ val c
              = (val', c, Some (echo.NewHTTPError 400 (echo.InvalidJSON e)))
  | inr _ => ∃ val' c', validation.Bind ρ typ val c = (val', c', None)
  end
  ∧ match json.parse body with
    | None =>
        json.Valid body = false
        ∧ json.Unmarshal_map body = inl json.SyntaxError
    | Some v =>
        json.Valid body = true
        ∧ match v with
          | json.JObject members =>
              match json.bad_number v with
              | Some lit =>
                  json.Unmarshal_map body
                  = inl (json.UnmarshalTypeError ("number " +:+ lit))
              | None => json.Unmarshal_map body = inr (json.to_map members)
              end
          | json.JNull => json.Unmarshal_map body = inr ∅
          | json.JArray _ =>
              json.Unmarshal_map body = inl (json.UnmarshalTypeError "array")
          | json.JString _ =>
              json.Unmarshal_map body = inl (json.UnmarshalTypeError "string")
          | json.JNumber _ =>
              json.Unmarshal_map body = inl (json.UnmarshalTypeError "number")
          | json.JBool _ =>
              json.Unmarshal_map body = inl (json.UnmarshalTypeError "bool")
          end
    end.
Proof.
  intros Hbody Hne. split.
  - pose proof (Bind_spec ρ typ val c) as HB. cbn zeta in HB.
    destruct (validation.BindParams c typ val) as [val1 paramErrs].
    rewrite Hbody, bool_decide_eq_false_2 in HB by done.
    destruct (json.Unmarshal_map body); rewrite HB; eauto.
  - unfold json.Valid, json.Unmarshal_map.
    destruct (json.parse body) as [v|]; [|done].
    split; [done|]. destruct v; try done.
    by destruct (json.bad_number _).
Qed.

End Aggregation.

(** ** Merging rule violations *)

Section Merging.
Context `{StructDecoder}.

(** After one round of tracking, a name is marked when the error carries
    it under some selector, and is otherwise as before. *)
Lemma trackBindingError_lookup m bindErr name :
  validation.trackBindingError m bindErr !! name
  = if bool_decide (Some name ∈ validation.selectors bindErr) then Some true
    else m !! name.
Proof.
  unfold validation.trackBindingError, validation.selectors.
  destruct bindErr as [f q p fo h e]; cbn.
  case_bool_decide as Hin.
  - rewrite !elem_of_cons, elem_of_nil in Hin.
    destruct h as [h|]; [destruct (decide (h = name)) as [->|]|];
      rewrite ?lookup_insert_eq, ?lookup_insert_ne by done; try done;
    (destruct fo as [fo|]; [destruct (decide (fo = name)) as [->|]|];
      rewrite ?lookup_insert_eq, ?lookup_insert_ne by done; try done);
    (destruct f as [f|]; [destruct (decide (f = name)) as [->|]|];
      rewrite ?lookup_insert_eq, ?lookup_insert_ne by done; try done);
    (destruct q as [q|]; [destruct (decide (q = name)) as [->|]|];
      rewrite ?lookup_insert_eq, ?lookup_insert_ne by done; try done);
    (destruct p as [p|]; [destruct (decide (p = name)) as [->|]|];
      rewrite ?lookup_insert_eq, ?lookup_insert_ne by done; try done);
    exfalso; intuition congruence.
  - rewrite !elem_of_cons, elem_of_nil in Hin.
    destruct h as [h|], fo as [fo|], f as [f|], q as [q|], p as [p|];
      rewrite ?lookup_insert_ne by (intros ->; intuition); done.
Qed.

(** The names tracked are those the binding errors carry. *)
Lemma fieldsWithBindingErrors_lookup bindingErrs name :
  default false (foldl validation.trackBindingError ∅ bindingErrs !! name)
  = bool_decide (Exists (λ e, Some name ∈ validation.selectors e) bindingErrs).
Proof.
  enough (∀ m : gmap string bool,
            (∀ k b, m !! k = Some b → b = true) →
            default false (foldl validation.trackBindingError m bindingErrs !! name)
            = bool_decide (m !! name = Some true
                           ∨ Exists (λ e, Some name ∈ validation.selectors e) bindingErrs))
    as Hgen.
  { rewrite Hgen by (intros k b; by rewrite lookup_empty).
    apply bool_decide_ext. rewrite lookup_empty. intuition congruence. }
  induction bindingErrs as [|e bindingErrs IH]; intros m Hm; cbn [foldl].
  - destruct (m !! name) as [b|] eqn:Hb.
    + rewrite (Hm _ _ Hb). cbn. by rewrite bool_decide_eq_true_2 by by left.
    + cbn. rewrite bool_decide_eq_false_2; [done|].
      intros [?|?%Exists_nil]; done.
  - rewrite IH.
    + apply bool_decide_ext. rewrite trackBindingError_lookup, Exists_cons.
      case_bool_decide; intuition congruence.
    + intros k b. rewrite trackBindingError_lookup.
      case_bool_decide; [congruence|apply Hm].
Qed.

Lemma appendRuleError_app typ fw allErrors valErr :
  validation.appendRuleError typ fw allErrors valErr
  = allErrors ++ validation.appendRuleError typ fw [] valErr.
Proof.
  unfold validation.appendRuleError.
  destruct (default false _); cbn; by rewrite ?app_nil_r.
Qed.

Lemma foldl_appendRuleError typ fw allErrors valErrs :
  foldl (validation.appendRuleError typ fw) allErrors valErrs
  = allErrors ++ (valErrs ≫= validation.appendRuleError typ fw []).
Proof.
  revert allErrors. induction valErrs as [|valErr valErrs IH]; intros allErrors; cbn.
  - by rewrite app_nil_r.
  - rewrite IH, appendRuleError_app. by rewrite <- app_assoc.
Qed.

(** What [BindAndValidate] returns when the bind does not abort: the
    binding errors the context holds, followed by the rule violations in
    the validator's order, less those whose lower-cased field name is the
    name some binding error carries. *)
Theorem BindAndValidate_merge ρ c payload val val' c' :
  validation.Bind ρ (validation.typ payload) val c = (val', c', None) →
  let bindingErrs := validation.binding_errors c' in
  let suppressed valErr :=
    bool_decide (Exists (λ e, Some (strings.ToLower (validator.Field valErr))
                              ∈ validation.selectors e) bindingErrs) in
  let ruleError valErr :=
    validation.createFieldError (validator.Field valErr)
      (validation.formatValidationMessage valErr)
      (validation.getFieldSource (validation.typ payload) (validator.Field valErr)) in
  let allErrors :=
    bindingErrs
    ++ (validation.Validate payload val'
          ≫= λ valErr, if suppressed valErr then [] else [ruleError valErr]) in
  validation.BindAndValidate ρ c payload val
  = (val', c',
     if bool_decide (0 < length allErrors)%nat
     then Some (ErrsHTTPError
                  (errs.NewUnprocessableError "Validation failed" true None allErrors))
     else None).
Proof.
  intros HBind bindingErrs suppressed ruleError allErrors.
  unfold validation.BindAndValidate. rewrite HBind.
  assert (∀ fw errors0,
            (∀ name, default false (fw !! name)
                     = bool_decide (Exists (λ e, Some name ∈ validation.selectors e)
                                      bindingErrs)) →
            errors0 = bindingErrs →
            foldl (validation.appendRuleError (validation.typ payload) fw) errors0
              (validation.Validate payload val')
            = allErrors) as Hfold.
  { intros fw errors0 Hfw ->. rewrite foldl_appendRuleError. subst allErrors.
    f_equal. induction (validation.Validate payload val') as [|valErr valErrs IH]; [done|].
    cbn [mbind list_bind]. rewrite IH. f_equal.
    unfold validation.appendRuleError. rewrite Hfw. subst suppressed. cbn beta.
    by destruct (bool_decide _). }
  subst bindingErrs. unfold validation.binding_errors in *.
  destruct (echo.Get c' validation.bindingErrorsKey) as [errs0|]; cbn [default] in *.
  - cbn [app]. rewrite (Hfold _ errs0 (fieldsWithBindingErrors_lookup errs0) eq_refl).
    by case_bool_decide.
  - pose proof (Hfold ∅ [] (fieldsWithBindingErrors_lookup []) eq_refl) as Hnil.
    match goal with
    | |- context [foldl ?f ?a ?l] =>
        replace (foldl f a l) with allErrors by (symmetry; exact Hnil)
    end.
    by case_bool_decide.
Qed.




End Merging.

(** ** [parseUUID] on well-formed input *)

Section UUIDs.

(** What the scanner and the number parser make of a hexadecimal digit. *)
Lemma is_hex_scanned a :
  json.is_hex a = true →
  Ascii.eqb a "010" = false ∧ fmt.isSpace a = false
  ∧ fmt.hexadecimalDigits a = true
  ∧ strconv.digit a = Some (json.hexval a)
  ∧ 0 ≤ json.hexval a < 16.
Proof.
  destruct a as [[] [] [] [] [] [] [] []]; vm_compute; intuition congruence.
Qed.

(** Two hexadecimal digits scan to the byte they spell. *)
Lemma Sscanf_02x_hex a b :
  json.is_hex a = true → json.is_hex b = true →
  fmt.Sscanf_02x (String a (String b EmptyString)) = inr (validation.hex_byte a b).
Proof.
  intros (Hnl & Hsp & Ha & Hda & Hra)%is_hex_scanned
         (_ & _ & Hb & Hdb & Hrb)%is_hex_scanned.
  unfold fmt.Sscanf_02x, validation.hex_byte. cbn [bytes list_ascii_of_string fmt.SkipSpace].
  rewrite Hnl, Hsp. cbn [take fmt.accept_while]. rewrite Ha, Hb.
  unfold strconv.ParseUint. cbn [str string_of_list_ascii bytes list_ascii_of_string].
  cbn [strconv.ParseUint_go]. rewrite Hda, Hdb.
  replace (16 <=? json.hexval a) with false by lia.
  replace (16 <=? json.hexval b) with false by lia.
  replace (2 ^ 64 - 1 <? 0 * 16 + json.hexval a) with false by lia.
  replace (2 ^ 64 - 1 <? (0 * 16 + json.hexval a) * 16 + json.hexval b) with false by lia.
  replace ((0 * 16 + json.hexval a) * 16 + json.hexval b <? 2 ^ 8) with true by lia.
  done.
Qed.

(** The two bytes of a string from an index on. *)
Lemma substring_pair s i a b :
  String.get i s = Some a → String.get (S i) s = Some b →
  substring i 2 s = String a (String b EmptyString).
Proof.
  revert i. induction s as [|c s IH]; intros [|i]; cbn; try done.
  - intros [= ->]. destruct s as [|c' s]; cbn; [done|]. intros [= ->].
    by destruct s.
  - apply IH.
Qed.

Lemma get_is_Some s i : (i < String.length s)%nat → is_Some (String.get i s).
Proof.
  revert i. induction s as [|c s IH]; intros [|i]; cbn; try lia; [by eexists|].
  intros ?. apply IH. lia.
Qed.

Lemma hex_digits_get s i a :
  validation.hex_digits s = true → String.get i s = Some a → json.is_hex a = true.
Proof.
  unfold validation.hex_digits. revert i.
  induction s as [|c s IH]; intros [|i]; cbn; try done.
  - intros [? _]%andb_prop [= <-]. done.
  - intros [_ ?]%andb_prop. by apply IH.
Qed.

(** The loop over the sixteen pairs of digits: every round left succeeds
    and stores the byte its pair spells. *)
Lemma parseUUID_loop_hex s n i uuid :
  String.length s = 32%nat → validation.hex_digits s = true →
  (i + n = 16)%nat → length uuid = 16%nat →
  ∃ uuid',
    validation.parseUUID_loop s n i uuid = (uuid', None)
    ∧ length uuid' = 16%nat
    ∧ (∀ k, (k < i)%nat → uuid' !! k = uuid !! k)
    ∧ (∀ k a b, (i ≤ k < 16)%nat →
         String.get (k * 2) s = Some a → String.get (S (k * 2)) s = Some b →
         uuid' !! k = Some (validation.hex_byte a b)).
Proof.
  intros Hlen Hhex. revert i uuid.
  induction n as [|n IH]; intros i uuid Hin Hu; cbn [validation.parseUUID_loop].
  - exists uuid. repeat split; [done|]. intros k a b ?. lia.
  - destruct (get_is_Some s (i * 2)) as [a Ha]; [lia|].
    destruct (get_is_Some s (S (i * 2))) as [b Hb]; [lia|].
    rewrite (substring_pair _ _ _ _ Ha Hb), Sscanf_02x_hex
      by eauto using hex_digits_get.
    destruct (IH (S i) (<[i := validation.hex_byte a b]> uuid)) as (uuid' & -> & Hl & Hlow & Hhigh);
      [lia|by rewrite length_insert|].
    exists uuid'. split; [done|]. split; [done|]. split.
    + intros k Hk. rewrite Hlow by lia. apply list_lookup_insert_ne. lia.
    + intros k a' b' Hk Ha' Hb'. destruct (decide (k = i)) as [->|Hne].
      * rewrite Hlow by lia. rewrite list_lookup_insert_eq by lia. congruence.
      * apply (Hhigh k a' b'); [lia|done..].
Qed.

(** [parseUUID] accepts every string that is thirty-two hexadecimal
    digits once its hyphens are removed, wherever the hyphens are, and
    returns the sixteen bytes the pairs of digits spell. *)
Theorem parseUUID_hex s :
  let digits := strings.ReplaceAll s "-" "" in
  String.length digits = 32%nat → validation.hex_digits digits = true →
  ∃ uuid,
    validation.parseUUID s = (uuid, None)
    ∧ length uuid = 16%nat
    ∧ ∀ i a b, (i < 16)%nat →
        String.get (i * 2) digits = Some a → String.get (S (i * 2)) digits = Some b →
        uuid !! i = Some (validation.hex_byte a b).
Proof.
  intros digits Hlen Hhex. unfold validation.parseUUID. fold digits.
  rewrite bool_decide_eq_false_2 by (by intros []).
  destruct (parseUUID_loop_hex digits 16 0 (replicate 16 0) Hlen Hhex eq_refl eq_refl)
    as (uuid & -> & Hl & _ & Hbytes).
  exists uuid. split; [done|]. split; [done|].
  intros i a b Hi. apply Hbytes. lia.
Qed.

(** [Sscanf] under [%02x] on two bytes, by cases on all of them. *)
Lemma Sscanf_02x_pair a b :
  match fmt.Sscanf_02x (String a (String b EmptyString)) with
  | inr n => validation.scanned_byte a b = Some n
  | inl _ => validation.scanned_byte a b = None
  end.
Proof.
  set (check a b :=
         match fmt.Sscanf_02x (String a (String b EmptyString)), validation.scanned_byte a b with
         | inr n, Some m => n =? m
         | inl _, None => true
         | _, _ => false
         end).
  set (all := ascii_of_nat <$> seq 0 256).
  assert (forallb (λ a, forallb (check a) all) all = true) as Hall
    by (vm_compute; reflexivity).
  assert (∀ x, In x all) as Hin.
  { intros x. rewrite <- (ascii_nat_embedding x). apply in_map, in_seq.
    pose proof (nat_ascii_bounded x). lia. }
  rewrite forallb_forall in Hall. specialize (Hall a (Hin a)).
  rewrite forallb_forall in Hall. specialize (Hall b (Hin b)).
  unfold check in Hall.
  destruct (fmt.Sscanf_02x _) as [e|n], (validation.scanned_byte a b) as [m|]; try done.
  apply Z.eqb_eq in Hall. by subst.
Qed.

(** The loop over the sixteen pairs: it ends without error exactly when
    every pair left spells a byte, and then holds those bytes. *)
Lemma parseUUID_loop_scanned s n i uuid :
  String.length s = 32%nat → (i + n = 16)%nat → length uuid = 16%nat →
  match validation.parseUUID_loop s n i uuid with
  | (uuid', None) =>
      length uuid' = 16%nat
      ∧ (∀ k, (k < i)%nat → uuid' !! k = uuid !! k)
      ∧ ∀ k, (i ≤ k < 16)%nat →
          ∃ a b m, String.get (k * 2) s = Some a ∧ String.get (S (k * 2)) s = Some b
                   ∧ validation.scanned_byte a b = Some m ∧ uuid' !! k = Some m
  | (_, Some _) =>
      ∃ k a b, (i ≤ k < 16)%nat
               ∧ String.get (k * 2) s = Some a ∧ String.get (S (k * 2)) s = Some b
               ∧ validation.scanned_byte a b = None
  end.
Proof.
  intros Hlen. revert i uuid.
  induction n as [|n IH]; intros i uuid Hin Hu; cbn [validation.parseUUID_loop].
  - split; [done|]. split; [done|]. intros k ?. lia.
  - destruct (get_is_Some s (i * 2)) as [a Ha]; [lia|].
    destruct (get_is_Some s (S (i * 2))) as [b Hb]; [lia|].
    rewrite (substring_pair _ _ _ _ Ha Hb).
    pose proof (Sscanf_02x_pair a b) as Hpair.
    destruct (fmt.Sscanf_02x _) as [e|m].
    { exists i, a, b. split; [lia|done]. }
    specialize (IH (S i) (<[i := m]> uuid) ltac:(lia)
                  ltac:(by rewrite length_insert)).
    destruct (validation.parseUUID_loop s n (S i) _) as [uuid' [err|]].
    + destruct IH as (k & a' & b' & Hk & Hrest). exists k, a', b'. split; [lia|done].
    + destruct IH as (Hl & Hlow & Hhigh). split; [done|]. split.
      * intros k Hk. rewrite Hlow by lia. apply list_lookup_insert_ne. lia.
      * intros k Hk. destruct (decide (k = i)) as [->|Hne]; [|apply Hhigh; lia].
        exists a, b, m. repeat (split; [done|]).
        rewrite Hlow by lia. apply list_lookup_insert_eq. lia.
Qed.

(** What [parseUUID] accepts, exactly: the texts that have thirty-two
    bytes once the hyphens are removed, each pair of which spells a byte;
    and it returns the sixteen bytes spelled.  A pair spells a byte also
    when only its first byte is a hexadecimal digit, or when it is a
    blank followed by a hexadecimal digit: such texts are accepted
    too. *)
Theorem parseUUID_accepts_exactly s :
  let digits := strings.ReplaceAll s "-" "" in
  let spelled (i : nat) (m : Z) :=
    ∃ a b, String.get (i * 2) digits = Some a ∧ String.get (S (i * 2)) digits = Some b
           ∧ validation.scanned_byte a b = Some m in
  ((validation.parseUUID s).2 = None
   ↔ String.length digits = 32%nat ∧ ∀ i, (i < 16)%nat → ∃ m, spelled i m)
  ∧ ((validation.parseUUID s).2 = None →
     ∀ i, (i < 16)%nat → ∃ m, spelled i m ∧ (validation.parseUUID s).1 !! i = Some m).
Proof.
  intros digits spelled. unfold validation.parseUUID. fold digits.
  case_bool_decide as Hlen.
  { cbn. split; [|done]. split; [done|]. intros [? _]. done. }
  assert (String.length digits = 32%nat) as Hlen32
    by (destruct (decide (String.length digits = 32%nat)); done).
  pose proof (parseUUID_loop_scanned digits 16 0 (replicate 16 0) Hlen32 eq_refl eq_refl)
    as Hloop.
  destruct (validation.parseUUID_loop digits 16 0 (replicate 16 0)) as [uuid [err|]];
    cbn [fst snd].
  - destruct Hloop as (k & a & b & Hk & Ha & Hb & Hnone).
    split; [|done]. split; [done|]. intros [_ Hall].
    destruct (Hall k ltac:(lia)) as (m & a' & b' & Ha' & Hb' & Hm). congruence.
  - destruct Hloop as (_ & _ & Hbytes). split.
    + split; [|done]. intros _. split; [done|]. intros i Hi.
      destruct (Hbytes i ltac:(lia)) as (a & b & m & Ha & Hb & Hm & _).
      by exists m, a, b.
    + intros _ i Hi.
      destruct (Hbytes i ltac:(lia)) as (a & b & m & Ha & Hb & Hm & Hu).
      exists m. split; [by exists a, b|done].
Qed.

End UUIDs.

(** ** The coercions of [bindValue], kind by kind *)

Section Coercions.
Context `{StructDecoder}.

Lemma wrap_unsigned_fits w n :
  0 ≤ w → 0 ≤ n → (reflect.wrap_unsigned w n = n ↔ n < 2 ^ w).
Proof.
  intros Hw Hn. unfold reflect.wrap_unsigned.
  assert (0 < 2 ^ w) by (apply Z.pow_pos_nonneg; lia).
  split.
  - intros Heq. pose proof (Z.mod_pos_bound n (2 ^ w) ltac:(lia)). lia.
  - intros Hfit. apply Z.mod_small. lia.
Qed.

(** A sign is no part of an unsigned number. *)
Lemma ParseUint_signed c s :
  c = "-"%char ∨ c = "+"%char →
  strconv.ParseUint (String c s) 10 64 = inl strconv.ErrSyntax.
Proof. by intros [-> | ->]. Qed.

Lemma ParseUint_digits c cs :
  Forall (λ c, json.is_digit c = true) (c :: cs) →
  strconv.ParseUint (str (c :: cs)) 10 64
  = if json.digits_val (c :: cs) 0 <? 2 ^ 64 then inr (json.digits_val (c :: cs) 0)
    else inl strconv.ErrRange.
Proof.
  intros Hcs. unfold strconv.ParseUint.
  change (str (c :: cs)) with (String c (str cs)).
  change (bytes (String c (str cs))) with (c :: bytes (str cs)).
  rewrite bytes_str, ParseUint_go_digits by (done || lia).
  destruct (_ <=? 2 ^ 64 - 1) eqn:Hle.
  - apply Z.leb_le in Hle. by rewrite (proj2 (Z.ltb_lt _ _)) by lia.
  - apply Z.leb_gt in Hle. by rewrite (proj2 (Z.ltb_ge _ _)) by lia.
Qed.

(** For a field of any unsigned-integer kind the raw text is parsed in
    base 10 as a 64-bit unsigned integer.  Text [ParseUint] rejects fails
    with [must be a valid unsigned integer] and the field is not written;
    a leading sign, minus or plus, is always rejected.  Any other text is
    stored converted to the declared width: a number that fits 64 bits but
    not the declared width is stored modulo two to the width, and no error
    is reported.  A run of digits is rejected exactly when it denotes a
    number of more than 64 bits. *)
Theorem unsigned_integer_coercion t rawValue structField :
  reflect.ord reflect.Uint ≤ reflect.ord (reflect.KindOf t) ≤ reflect.ord reflect.Uint64 →
  let w := reflect.Bits (reflect.KindOf t) in
  match strconv.ParseUint rawValue 10 64 with
  | inl _ =>
      validation.bindValue t rawValue structField
      = (Some "must be a valid unsigned integer", structField)
  | inr n =>
      0 ≤ n < 2 ^ 64
      ∧ validation.bindValue t rawValue structField
        = (None, reflect.VUint (reflect.wrap_unsigned w n))
      ∧ (reflect.wrap_unsigned w n = n ↔ n < 2 ^ w)
  end
  ∧ (∀ c s, c = "-"%char ∨ c = "+"%char →
       validation.bindValue t (String c s) structField
       = (Some "must be a valid unsigned integer", structField))
  ∧ ∀ c cs,
      Forall (λ c, json.is_digit c = true) (c :: cs) →
      strconv.ParseUint (str (c :: cs)) 10 64
      = if json.digits_val (c :: cs) 0 <? 2 ^ 64
        then inr (json.digits_val (c :: cs) 0)
        else inl strconv.ErrRange.
Proof.
  intros Hkind w. split; [|split; [|apply ParseUint_digits]].
  - destruct t; cbn in Hkind; try lia;
      (destruct (strconv.ParseUint rawValue 10 64) as [e|n] eqn:Hparse;
       [by cbn; rewrite Hparse|]);
      (pose proof (ParseUint_range rawValue 10 64 n ltac:(lia) ltac:(lia) Hparse) as Hn;
       split; [done|split; [by cbn; rewrite Hparse|]];
       apply wrap_unsigned_fits; [done|lia]).
  - intros c s Hc. pose proof (ParseUint_signed c s Hc) as Hsign.
    destruct t; cbn in Hkind; try lia;
      cbn -[strconv.ParseUint]; by rewrite Hsign.
Qed.

(** A pointer field is coerced as the type it points to, starting from a
    fresh zero value: when that succeeds the field points to the value
    bound, and when it fails the error is passed on and the field is left
    as it was.  The case the code spells out for pointers to strings
    agrees with this. *)
Theorem pointer_coercion elemType rawValue structField :
  validation.bindValue (reflect.TPointer elemType) rawValue structField
  = match validation.bindValue elemType rawValue (reflect.Zero elemType) with
    | (Some err, _) => (Some err, structField)
    | (None, newElem) => (None, reflect.VPointer (Some newElem))
    end.
Proof.
  destruct elemType; try done.
Qed.

(** Whether [bindValue] answers [unsupported type for binding] depends on
    the declared type alone, never on the text: it does for every text on
    a type that is not validation.bindable (slices, maps, structs, channels,
    functions, interfaces, complex numbers, [uintptr], arrays of a length
    other than sixteen, and pointers to these), leaving the field as it
    was; it never does on a validation.bindable type. *)
Theorem unsupported_type_by_type_alone t rawValue structField :
  if validation.bindable t
  then (validation.bindValue t rawValue structField).1
       ≠ Some "unsupported type for binding"
  else validation.bindValue t rawValue structField
       = (Some "unsupported type for binding", structField).
Proof.
  revert structField. induction t; intros structField; cbn [validation.bindable]; try done;
    try (cbn; by repeat case_match).
  - (* arrays *)
    case_bool_decide as Hlen.
    + subst. cbn. by destruct (validation.parseUUID rawValue) as [? []].
    + cbn. rewrite (bool_decide_eq_false_2 (Some len = Some 16)) by congruence.
      done.
  - (* pointers *)
    assert (validation.bindValue (reflect.TPointer t) rawValue structField
            = match validation.bindValue t rawValue (reflect.Zero t) with
              | (Some err, _) => (Some err, structField)
              | (None, newElem) => (None, reflect.VPointer (Some newElem))
              end) as -> by (by destruct t).
    specialize (IHt (reflect.Zero t)).
    destruct (validation.bindable t).
    + destruct (validation.bindValue t rawValue _) as [[err|] v]; cbn in *; congruence.
    + by rewrite IHt.
Qed.

(** [bindValue] reads the field only to hand it back on failure: whether
    it fails, and with which text, depends on the declared type and on the
    raw text alone; on success the value stored is the same whatever the
    field held before, all of the old content being replaced. *)
Theorem bindValue_overwrites_or_keeps t rawValue structField other :
  validation.bindValue t rawValue structField
  = match validation.bindValue t rawValue other with
    | (Some err, _) => (Some err, structField)
    | (None, newValue) => (None, newValue)
    end.
Proof.
  destruct t; cbn; try done; repeat case_match; simplify_eq; done.
Qed.

End Coercions.

(** ** Fields and keys the binder leaves alone *)

Section Untouched.
Context `{StructDecoder}.

Implicit Types (c : echo.Context) (typ : list reflect.StructField)
  (val : list reflect.Value).

Lemma BindParams_sources_absent c field fieldVal srcs :
  (∀ source, source ∈ srcs → validation.getParamValue c field source = "") →
  validation.BindParams_sources c field fieldVal srcs = (fieldVal, []).
Proof.
  induction srcs as [|source srcs IH]; intros Habsent; cbn; [done|].
  rewrite (Habsent source) by by left. cbn.
  apply IH. intros s Hs. apply Habsent. by right.
Qed.

(** A field is neither written nor reported when it is unexported, or
    when the request has no value for it: for each of the four sources
    the tag is missing, is [-], or names a parameter that is absent or
    empty.  A request with no value for any field leaves the whole struct
    as it was and reports nothing. *)
Theorem absent_inputs_bind_nothing c typ val :
  (∀ field, field ∈ typ →
     reflect.CanSet field = false
     ∨ ∀ source, source ∈ validation.sources →
         validation.getParamValue c field source = "") →
  validation.BindParams c typ val = (val, []).
Proof.
  intros Habsent. rewrite BindParams_spec.
  assert (∀ field fieldVal, field ∈ typ →
            validation.BindParams_field c field fieldVal = (fieldVal, [])) as Hfield.
  { intros field fieldVal Hin. unfold validation.BindParams_field.
    destruct (Habsent field Hin) as [-> | Hsrc]; [done|].
    destruct (reflect.CanSet field); [|done]. cbn [negb].
    by apply BindParams_sources_absent. }
  clear Habsent. revert val.
  induction typ as [|field typ IH]; intros val.
  - cbn. by rewrite drop_0.
  - destruct val as [|fieldVal val]; [done|].
    cbn [zip_with length drop concat app].
    rewrite (Hfield field fieldVal) by by left. cbn [fst snd app].
    specialize (IH (λ f v Hin, Hfield f v (list_elem_of_further _ _ _ Hin)) val).
    injection IH as IH1 IH2. by rewrite IH1, IH2.
Qed.

(** *** The keys of a payload type *)

Lemma getJSONFields_field_cases fields field :
  (validation.json_name field = None
   ∧ validation.getJSONFields_field fields field = fields)
  ∨ ∃ key,
      validation.json_name field = Some key
      ∧ validation.getJSONFields_field fields field
        = <[key := validation.unwrapped field]> fields.
Proof.
  unfold validation.json_name, validation.getJSONFields_field, validation.unwrapped.
  cbn zeta.
  destruct (_ || _ || _ || _); [by left|].
  destruct (_ || _); [by left|].
  right. eexists. split; [done|]. by destruct (reflect.Type_ field).
Qed.

(** The keys [getJSONFields] knows are those some field of the struct is
    read from in the body, and no other: a key is unknown exactly when no
    field declares it (the fields bound from the path, the query, a form
    or a header declare none, nor do the fields tagged [-] or not tagged
    for JSON); and the type registered under a known key is the type,
    with one pointer removed, of a field that declares it. *)
Theorem getJSONFields_keys typ key :
  match validation.getJSONFields typ !! key with
  | None => ∀ field, field ∈ typ → validation.json_name field ≠ Some key
  | Some t =>
      ∃ field, field ∈ typ ∧ validation.json_name field = Some key
               ∧ validation.unwrapped field = t
  end.
Proof.
  unfold validation.getJSONFields.
  induction typ as [|field typ IH] using rev_ind.
  - cbn. rewrite lookup_empty. intros field Hin. by apply elem_of_nil in Hin.
  - rewrite foldl_app. cbn [foldl].
    destruct (getJSONFields_field_cases (foldl validation.getJSONFields_field ∅ typ) field)
      as [[Hnone ->]|(key' & Hname & ->)].
    + destruct (foldl _ _ _ !! key) as [t|].
      * destruct IH as (f & Hin & Hf). exists f. split; [|done].
        apply elem_of_app. by left.
      * intros f [Hin|Hin%list_elem_of_singleton]%elem_of_app; [by apply IH|].
        subst. by rewrite Hnone.
    + destruct (decide (key' = key)) as [->|Hne].
      * rewrite lookup_insert_eq. exists field. split; [|done].
        apply elem_of_app. right. by left.
      * rewrite lookup_insert_ne by done.
        destruct (foldl _ _ _ !! key) as [t|].
        -- destruct IH as (f & Hin & Hf). exists f. split; [|done].
           apply elem_of_app. by left.
        -- intros f [Hin|Hin%list_elem_of_singleton]%elem_of_app; [by apply IH|].
           subst. rewrite Hname. congruence.
Qed.

Lemma isTypeCompatible_coarse t v :
  validation.isTypeCompatible t v
  = match validation.coarse_type t with
    | None => true
    | Some expected => bool_decide (validation.getJSONType v = expected)
    end.
Proof.
  unfold validation.isTypeCompatible, validation.coarse_type.
  by destruct (reflect.KindOf t).
Qed.

Lemma getTypeString_coarse t expected :
  validation.coarse_type t = Some expected → validation.getTypeString t = expected.
Proof.
  unfold validation.coarse_type, validation.getTypeString.
  destruct (reflect.KindOf t); intros [= <-]; done.
Qed.

(** The structural check of one key of the body, for the field that is
    read from it: a type the check does not classify (a pointer to a
    pointer, an interface, ...) takes any value, null included; a
    classified type takes the values of its own coarse JSON type and no
    other, and only this coarse type is looked at: every JSON number,
    whatever its value, passes for every integer and float kind.  A value
    of another coarse type gets the one error [expected <type> but got
    <type>] under the key. *)
Theorem structural_check_by_coarse_type pre field post key rawValue :
  validation.json_name field = Some key →
  (∀ g, g ∈ post → validation.json_name g ≠ Some key) →
  validation.validateJSONStructure (pre ++ field :: post) [(key, rawValue)]
  = match validation.coarse_type (validation.unwrapped field) with
    | None => []
    | Some expected =>
        if bool_decide (validation.getJSONType rawValue = expected) then []
        else [validation.fieldError key
                ("expected " +:+ expected +:+ " but got "
                 +:+ validation.getJSONType rawValue)]
    end.
Proof.
  intros Hname Hpost. unfold validation.validateJSONStructure.
  cbn [foldl validation.validateJSONStructure_entry].
  rewrite (getJSONFields_lookup pre field post key Hname Hpost).
  rewrite isTypeCompatible_coarse.
  destruct (validation.coarse_type _) as [expected|] eqn:Hcoarse; [|done].
  rewrite (getTypeString_coarse _ _ Hcoarse).
  by case_bool_decide.
Qed.

(** The structural check passes, in whatever order the body is ranged
    over, exactly when every key of the body is declared by the payload
    type and holds a value compatible with the type registered for
    it. *)
Theorem no_structural_error_iff ρ typ (rawMap : gmap string json.any) :
  validation.ranges ρ →
  validation.validateJSONStructure typ (ρ rawMap) = []
  ↔ ∀ key rawValue,
      rawMap !! key = Some rawValue →
      ∃ t, validation.getJSONFields typ !! key = Some t
           ∧ validation.isTypeCompatible t rawValue = true.
Proof.
  intros Hρ.
  rewrite <- length_zero_iff_nil, validateJSONStructure_length, (Hρ rawMap).
  rewrite length_zero_iff_nil. split.
  - intros Hnil key rawValue Hlook.
    apply elem_of_map_to_list in Hlook.
    destruct (validation.key_fails typ (key, rawValue)) eqn:Hfail.
    + assert ((key, rawValue)
              ∈ filter (λ entry, validation.key_fails typ entry = true)
                  (map_to_list rawMap)) as Hin by by apply list_elem_of_filter.
      rewrite Hnil in Hin. by apply elem_of_nil in Hin.
    + unfold validation.key_fails in Hfail. cbn in Hfail.
      destruct (validation.getJSONFields typ !! key) as [t|]; [|done].
      exists t. split; [done|]. by apply negb_false_iff.
  - intros Hall. apply elem_of_nil_inv.
    intros [key rawValue] [Hfail Hin%elem_of_map_to_list]%list_elem_of_filter.
    destruct (Hall key rawValue Hin) as (t & Ht & Hcompat).
    unfold validation.key_fails in Hfail. cbn in Hfail.
    by rewrite Ht, Hcompat in Hfail.
Qed.

End Untouched.

(** ** What [BindAndValidate] hands back *)

Section Responses.
Context `{StructDecoder}.

Implicit Types (c : echo.Context) (typ : list reflect.StructField)
  (val : list reflect.Value).

(** [BindAndValidate] in closed form: the folds over the binding errors
    and over the rule violations, solved. *)
Lemma BindAndValidate_spec ρ c payload val :
  validation.BindAndValidate ρ c payload val
  = match validation.Bind ρ (validation.typ payload) val c with
    | (val', c', Some httpErr) => (val', c', Some (EchoHTTPError httpErr))
    | (val', c', None) =>
        let bindingErrs := validation.binding_errors c' in
        let allErrors :=
          bindingErrs
          ++ (validation.Validate payload val'
                ≫= validation.appendRuleError (validation.typ payload)
                      (foldl validation.trackBindingError ∅ bindingErrs) []) in
        (val', c',
         if bool_decide (0 < length allErrors)%nat
         then Some (ErrsHTTPError
                      (errs.NewUnprocessableError "Validation failed" true None
                         allErrors))
         else None)
    end.
Proof.
  unfold validation.BindAndValidate, validation.binding_errors.
  destruct (validation.Bind ρ (validation.typ payload) val c) as [[val' c'] [e|]];
    [done|].
  destruct (echo.Get c' validation.bindingErrorsKey) as [errs0|];
    cbn [default app foldl]; rewrite foldl_appendRuleError.
  all: unfold id; cbn [app]; by case_bool_decide.
Qed.

(** The texts [bindValue] fails with. *)
Lemma bindValue_error t rawValue structField err v' :
  validation.bindValue t rawValue structField = (Some err, v') →
  err ∈ [ "invalid UUID format"; "must be a valid integer";
          "must be a valid unsigned integer"; "must be a valid number";
          "must be a valid boolean"; "unsupported type for binding" ].
Proof.
  revert structField v'.
  induction t; intros structField v'; cbn [validation.bindValue]; cbn;
    repeat case_match; intros Heq; simplify_eq;
    first [ by repeat (first [by left | right]) | by eapply IHt ].
Qed.

Lemma BindParams_error_message c typ val e :
  e ∈ (validation.BindParams c typ val).2 →
  errs.Error e
  ∈ [ "invalid UUID format"; "must be a valid integer";
      "must be a valid unsigned integer"; "must be a valid number";
      "must be a valid boolean"; "unsupported type for binding" ].
Proof.
  rewrite BindParams_spec. cbn [snd].
  intros (l & He & (i & field & fieldVal & -> & _ & _)%elem_of_lookup_zip_with)%elem_of_concat.
  unfold validation.BindParams_field in He.
  destruct (reflect.CanSet field); cbn [negb snd] in He; [|by apply elem_of_nil in He].
  destruct (BindParams_sources_cases c field fieldVal validation.sources)
    as [Hn|(source & rawValue & _ & _ & _ & [(v' & _ & Hn)|(err & Hbind & Hn)])];
    rewrite Hn in He; cbn [snd] in He; [by apply elem_of_nil in He..|].
  apply list_elem_of_singleton in He as ->.
  assert (errs.Error (validation.createFieldError (reflect.Name field) err source) = err)
    as -> by done.
  by eapply bindValue_error.
Qed.

(** The messages of the sourced fields come from a fixed list of six
    texts: whatever the request holds, no part of it is repeated in the
    message of a coercion error.  Each such error belongs to a field of
    the payload type and to one of the four sources, whose selector it
    sets. *)
Theorem coercion_messages_are_fixed c typ val e :
  e ∈ (validation.BindParams c typ val).2 →
  errs.Error e
  ∈ [ "invalid UUID format"; "must be a valid integer";
      "must be a valid unsigned integer"; "must be a valid number";
      "must be a valid boolean"; "unsupported type for binding" ]
  ∧ ∃ field source,
      field ∈ typ ∧ source ∈ validation.sources
      ∧ e = validation.createFieldError (reflect.Name field) (errs.Error e) source.
Proof.
  intros He. split; [by eapply BindParams_error_message|].
  by apply (BindParams_errors_shape c typ val).
Qed.

Lemma append_nonempty s a t : s +:+ String a t ≠ "".
Proof. by destruct s. Qed.

Lemma formatValidationMessage_nonempty valErr :
  validation.formatValidationMessage valErr ≠ "".
Proof.
  unfold validation.formatValidationMessage.
  repeat case_bool_decide; try done; apply append_nonempty.
Qed.

Lemma getFieldSource_cases typ fieldName :
  validation.getFieldSource typ fieldName ∈ validation.sources
  ∨ validation.getFieldSource typ fieldName = "json".
Proof.
  induction typ as [|field typ IH]; cbn; [by right|].
  case_bool_decide; [|exact IH].
  repeat case_bool_decide; [left; apply sources_spec; auto ..|by right].
Qed.

(** Well-formed entries: one selector, and a message. *)
Lemma createFieldError_well_formed fieldName message source :
  source ∈ validation.sources ∨ source = "json" →
  validation.populated (validation.createFieldError fieldName message source) = 1%nat.
Proof. by intros [[-> | [-> | [-> | ->]]]%sources_spec| ->]. Qed.

Lemma BindParams_errors_well_formed c typ val e :
  e ∈ (validation.BindParams c typ val).2 →
  validation.populated e = 1%nat ∧ errs.Error e ≠ "".
Proof.
  intros He. split.
  - destruct (BindParams_errors_shape c typ val e He) as (field & source & _ & Hsrc & ->).
    apply createFieldError_well_formed. by left.
  - apply BindParams_error_message in He. intros Hempty. rewrite Hempty in He.
    rewrite !elem_of_cons, elem_of_nil in He. intuition congruence.
Qed.

Lemma validateJSONStructure_well_formed typ entries e :
  e ∈ validation.validateJSONStructure typ entries →
  validation.populated e = 1%nat ∧ errs.Error e ≠ "".
Proof.
  rewrite validateJSONStructure_spec.
  intros ([key rawValue] & He & _)%list_elem_of_bind.
  cbn in He. destruct (validation.getJSONFields typ !! key) as [t|].
  - destruct (validation.isTypeCompatible t rawValue); cbn in He;
      [by apply elem_of_nil in He|].
    by apply list_elem_of_singleton in He as ->.
  - by apply list_elem_of_singleton in He as ->.
Qed.

(** With no binding errors in the context before the call, those in it
    after a [Bind] that does not abort are the ones of this call. *)
Lemma Bind_binding_errors_fresh ρ typ val c val' c' :
  echo.Get c validation.bindingErrorsKey = None →
  validation.Bind ρ typ val c = (val', c', None) →
  ∃ entries,
    validation.binding_errors c'
    = (validation.BindParams c typ val).2 ++ validation.validateJSONStructure typ entries.
Proof.
  intros Hfresh HBind.
  assert (∀ errors,
            validation.binding_errors
              (if bool_decide (0 < length errors)%nat
               then echo.Set_ c validation.bindingErrorsKey errors else c)
            = errors) as Hrecord.
  { intros errors. case_bool_decide as Hlen.
    - unfold validation.binding_errors, echo.Get, echo.Set_. cbn [echo.store].
      by rewrite lookup_insert_eq.
    - unfold validation.binding_errors. rewrite Hfresh.
      destruct errors; [done|cbn in Hlen; lia]. }
  pose proof (Bind_spec ρ typ val c) as Hspec. cbn zeta in Hspec.
  destruct (validation.BindParams c typ val) as [val1 paramErrs]. cbn [snd].
  rewrite HBind in Hspec.
  destruct (echo.Body c) as [body|]; [|done].
  case_bool_decide.
  - injection Hspec as _ ->. exists []. rewrite Hrecord. by rewrite app_nil_r.
  - destruct (json.Unmarshal_map body) as [e|rawMap]; [done|].
    injection Hspec as _ ->. eexists. apply Hrecord.
Qed.

(** On a context that holds no binding errors from before, every entry
    of the list [BindAndValidate] returns, whether it comes from a
    coercion, from the structural check or from a rule, has exactly one
    location selector set and a message that is not empty. *)
Theorem BindAndValidate_errors_well_formed ρ c payload val val' c' httpErr :
  echo.Get c validation.bindingErrorsKey = None →
  validation.BindAndValidate ρ c payload val = (val', c', Some (ErrsHTTPError httpErr)) →
  Forall (λ e, validation.populated e = 1%nat ∧ errs.Error e ≠ "")
    (errs.Errors httpErr).
Proof.
  intros Hfresh. rewrite BindAndValidate_spec.
  destruct (validation.Bind ρ (validation.typ payload) val c)
    as [[val1 c1] [e|]] eqn:HBind; [done|].
  cbn zeta. case_bool_decide; [|done]. intros [= <- <- <-].
  cbn [errs.Errors errs.NewUnprocessableError errs.newError].
  destruct (Bind_binding_errors_fresh _ _ _ _ _ _ Hfresh HBind) as [entries ->].
  apply Forall_app. split; [apply Forall_app; split|]; apply Forall_forall.
  - apply BindParams_errors_well_formed.
  - apply validateJSONStructure_well_formed.
  - intros e (valErr & He & _)%list_elem_of_bind.
    unfold validation.appendRuleError in He.
    destruct (default false _); [by apply elem_of_nil in He|].
    apply list_elem_of_singleton in He as ->. split.
    + apply createFieldError_well_formed, getFieldSource_cases.
    + apply formatValidationMessage_nonempty.
Qed.

(** The three outcomes of [BindAndValidate], and no other: nil; the 400
    of a [Bind] that aborted, in which case the rules are not consulted,
    the context is as before and the struct holds what the parameters
    bound; or an error of status 422 with the code
    [UNPROCESSABLE_ENTITY], the message [Validation failed] and a list of
    errors that is not empty.  The 422 never has its override flag set,
    though the call asks for it. *)
Theorem BindAndValidate_outcomes ρ c payload val :
  match validation.BindAndValidate ρ c payload val with
  | (_, _, None) => True
  | (val', c', Some (EchoHTTPError httpErr)) =>
      echo.Code httpErr = 400
      ∧ validation.Bind ρ (validation.typ payload) val c = (val', c', Some httpErr)
      ∧ c' = c
      ∧ val' = (validation.BindParams c (validation.typ payload) val).1
  | (_, _, Some (ErrsHTTPError httpErr)) =>
      errs.Status httpErr = 422
      ∧ errs.Code httpErr = "UNPROCESSABLE_ENTITY"
      ∧ errs.Message httpErr = "Validation failed"
      ∧ errs.Override httpErr = false
      ∧ errs.Errors httpErr ≠ []
  end.
Proof.
  rewrite BindAndValidate_spec.
  pose proof (Bind_spec ρ (validation.typ payload) val c) as Hspec. cbn zeta in Hspec.
  destruct (validation.BindParams c (validation.typ payload) val) as [val1 paramErrs].
  destruct (validation.Bind ρ (validation.typ payload) val c) as [[val' c'] [e|]].
  - cbn [fst].
    destruct (echo.Body c) as [body|]; [|by injection Hspec as -> -> ->].
    case_bool_decide; [done|].
    destruct (json.Unmarshal_map body); [by injection Hspec as -> -> ->|done].
  - clear Hspec. cbn zeta. case_bool_decide as Hlen; [|done].
    repeat (split; [done|]).
    intros Hnil. cbn [errs.Errors errs.NewUnprocessableError errs.newError] in Hnil.
    rewrite Hnil in Hlen. cbn in Hlen. lia.
Qed.

(** [BindAndValidate] returns nil exactly when [Bind] does not abort, the
    context holds no binding error after it, and the payload's [Validate]
    reports no violation on the bound value. *)
Theorem BindAndValidate_nil_iff ρ c payload val :
  (validation.BindAndValidate ρ c payload val).2 = None
  ↔ ∃ val' c',
      validation.Bind ρ (validation.typ payload) val c = (val', c', None)
      ∧ validation.binding_errors c' = []
      ∧ validation.Validate payload val' = [].
Proof.
  rewrite BindAndValidate_spec.
  destruct (validation.Bind ρ (validation.typ payload) val c) as [[val' c'] [e|]].
  { cbn. split; [done|]. by intros (? & ? & [=] & _). }
  cbn zeta. split.
  - case_bool_decide as Hlen; [done|]. intros _.
    exists val', c'. split; [done|].
    destruct (validation.binding_errors c') as [|e es]; [|cbn in Hlen; lia].
    split; [done|]. cbn [app foldl] in Hlen.
    destruct (validation.Validate payload val') as [|valErr valErrs]; [done|].
    exfalso. apply Hlen. cbn [mbind list_bind]. rewrite length_app.
    unfold validation.appendRuleError at 1. rewrite lookup_empty. cbn. lia.
  - intros (? & ? & [= <- <-] & -> & ->). done.
Qed.

End Responses.

(** ** Rule violations on keys of the body *)

Section JSONSuppression.
Context `{StructDecoder}.

(** A rule violation on a field read from the body is skipped when the
    key of the body that failed the structural check, unknown or of the
    wrong type, is the field's Go name in lower case: the structural
    error is recorded under the key as the body spells it, and that is
    then the name the loop over the violations looks up. *)
Theorem rule_error_on_failed_json_key_is_skipped
    ρ c payload val body rawMap key rawValue valErr allErrors :
  validation.ranges ρ →
  echo.Body c = Some body → body ≠ "" →
  json.Unmarshal_map body = inr rawMap →
  rawMap !! key = Some rawValue →
  validation.key_fails (validation.typ payload) (key, rawValue) = true →
  strings.ToLower (validator.Field valErr) = key →
  let c' := (validation.Bind ρ (validation.typ payload) val c).1.2 in
  (validation.Bind ρ (validation.typ payload) val c).2 = None
  ∧ validation.appendRuleError (validation.typ payload)
      (foldl validation.trackBindingError ∅ (validation.binding_errors c'))
      allErrors valErr
    = allErrors.
Proof.
  intros Hρ Hbody Hne Hmap Hkey Hfail Hname. cbn zeta.
  pose proof (Bind_spec ρ (validation.typ payload) val c) as Hspec. cbn zeta in Hspec.
  destruct (validation.BindParams c (validation.typ payload) val) as [val1 paramErrs].
  rewrite Hbody, bool_decide_eq_false_2, Hmap in Hspec by done.
  destruct (validateJSONStructure_entry_cases (validation.typ payload) (key, rawValue))
    as [[Hk _]|[_ [message Hmsg]]]; [congruence|].
  assert (validation.fieldError key message
          ∈ validation.validateJSONStructure (validation.typ payload) (ρ rawMap)) as Hin.
  { rewrite validateJSONStructure_spec. apply list_elem_of_bind.
    exists (key, rawValue). split; [rewrite Hmsg; by left|].
    rewrite (Hρ rawMap). by apply elem_of_map_to_list. }
  rewrite bool_decide_eq_true_2 in Hspec.
  2:{ rewrite length_app. apply list_elem_of_In, in_split in Hin as (l1 & l2 & ->).
      rewrite length_app. cbn. lia. }
  rewrite Hspec. cbn [fst snd]. split; [done|].
  unfold validation.appendRuleError.
  rewrite fieldsWithBindingErrors_lookup, bool_decide_eq_true_2; [done|].
  apply Exists_exists. exists (validation.fieldError key message). split.
  - unfold validation.binding_errors, echo.Get, echo.Set_. cbn [echo.store].
    rewrite lookup_insert_eq. cbn. apply elem_of_app. by right.
  - rewrite Hname. by left.
Qed.

End JSONSuppression.

(** ** Error codes *)

Section Codes.

Lemma ReplaceAll_length s old new :
  String.length (strings.ReplaceAll s old (String new EmptyString)) = String.length s.
Proof.
  induction s as [|a s IH]; cbn; [done|].
  destruct (Ascii.eqb a old); exact (f_equal S IH).
Qed.

Lemma ToUpper_length s : String.length (strings.ToUpper s) = String.length s.
Proof. induction s as [|a s IH]; cbn; [done|]. f_equal. exact IH. Qed.

Lemma toUpper_byte_spec a :
  let b := strings.toUpper_byte a in
  in_range "a" "z" b = false
  ∧ strings.toUpper_byte b = b
  ∧ (a ≠ " "%char → a ≠ "-"%char → b ≠ " "%char ∧ b ≠ "-"%char)
  ∧ (a = "_"%char → b = "_"%char).
Proof. destruct a as [[] [] [] [] [] [] [] []]; vm_compute; intuition congruence. Qed.

(** The bytes of a code: none is a blank, a hyphen or a lower-case
    letter. *)
Lemma MakeUpperSnakeCase_bytes s :
  Forall (λ a, a ≠ " "%char ∧ a ≠ "-"%char ∧ in_range "a" "z" a = false)
    (bytes (errs.MakeUpperSnakeCase s)).
Proof.
  unfold errs.MakeUpperSnakeCase.
  induction s as [|a s IH]; cbn; [constructor|].
  destruct (Ascii.eqb_spec a " ") as [->|Hsp]; cbn.
  { constructor; [by vm_compute|exact IH]. }
  destruct (Ascii.eqb_spec a "-") as [->|Hhy]; cbn.
  { constructor; [by vm_compute|exact IH]. }
  constructor; [|exact IH].
  destruct (toUpper_byte_spec a) as (Hlow & _ & Hkeep & _).
  destruct (Hkeep Hsp Hhy). done.
Qed.

Lemma MakeUpperSnakeCase_fixed s :
  Forall (λ a, a ≠ " "%char ∧ a ≠ "-"%char ∧ in_range "a" "z" a = false) (bytes s) →
  errs.MakeUpperSnakeCase s = s.
Proof.
  unfold errs.MakeUpperSnakeCase.
  induction s as [|a s IH]; cbn; [done|].
  intros Hall. apply Forall_cons in Hall as [(Hsp & Hhy & Hlow) Hall].
  rewrite (proj2 (Ascii.eqb_neq a " ")) by done. cbn.
  rewrite (proj2 (Ascii.eqb_neq a "-")) by done. cbn.
  rewrite IH by done. f_equal.
  unfold strings.toUpper_byte. by rewrite Hlow.
Qed.

Lemma toUpper_byte_ascii a :
  byte_val a < 128 → byte_val (strings.toUpper_byte a) < 128.
Proof. destruct a as [[] [] [] [] [] [] [] []]; vm_compute; congruence. Qed.

Lemma MakeUpperSnakeCase_ascii s :
  Forall (λ a, byte_val a < 128) (bytes s) →
  Forall (λ a, byte_val a < 128) (bytes (errs.MakeUpperSnakeCase s)).
Proof.
  unfold errs.MakeUpperSnakeCase.
  induction s as [|a s IH]; cbn; [done|].
  intros Hall. apply Forall_cons in Hall as [Ha Hall].
  destruct (Ascii.eqb_spec a " ") as [->|Hsp]; cbn.
  { constructor; [by vm_compute|by apply IH]. }
  destruct (Ascii.eqb_spec a "-") as [->|Hhy]; cbn.
  { constructor; [by vm_compute|by apply IH]. }
  constructor; [by apply toUpper_byte_ascii|by apply IH].
Qed.

(** On a text of ASCII bytes (the status texts it is applied to are),
    [MakeUpperSnakeCase] keeps the length of the text and returns ASCII
    bytes, none of them a blank, a hyphen or a lower-case letter; it
    leaves such a text as it is, so that applying it twice is applying it
    once. *)
Theorem MakeUpperSnakeCase_normal_form s :
  Forall (λ a, byte_val a < 128) (bytes s) →
  String.length (errs.MakeUpperSnakeCase s) = String.length s
  ∧ Forall (λ a, byte_val a < 128 ∧ a ≠ " "%char ∧ a ≠ "-"%char
                 ∧ in_range "a" "z" a = false)
      (bytes (errs.MakeUpperSnakeCase s))
  ∧ errs.MakeUpperSnakeCase (errs.MakeUpperSnakeCase s) = errs.MakeUpperSnakeCase s.
Proof.
  intros Hascii. split; [|split].
  - unfold errs.MakeUpperSnakeCase. by rewrite ToUpper_length, !ReplaceAll_length.
  - pose proof (MakeUpperSnakeCase_ascii s Hascii) as H1.
    pose proof (MakeUpperSnakeCase_bytes s) as H2.
    revert H1 H2. generalize (bytes (errs.MakeUpperSnakeCase s)). intros cs H1 H2.
    induction H1 as [|a cs Ha _ IH]; [constructor|].
    apply Forall_cons in H2 as [Hb H2]. constructor; [tauto|by apply IH].
  - apply MakeUpperSnakeCase_fixed, MakeUpperSnakeCase_bytes.
Qed.

End Codes.

(** ** The two UUID checks *)

Section UUIDChecks.
Context `{StructDecoder}.

Lemma in_class_hex a : regexp.in_class validation.hexClass a = json.is_hex a.
Proof.
  unfold regexp.in_class, validation.hexClass, json.is_hex. cbn [existsb fst snd].
  by destruct (in_range "0" "9" a), (in_range "a" "f" a), (in_range "A" "F" a).
Qed.

Lemma is_hex_no_hyphen a : json.is_hex a = true → Ascii.eqb a "-" = false.
Proof. destruct a as [[] [] [] [] [] [] [] []]; vm_compute; congruence. Qed.

(** The digits of a text: its bytes other than hyphens. *)
Lemma ReplaceAll_hyphens cs1 cs2 :
  Forall (λ a, json.is_hex a = true) cs1 →
  strings.ReplaceAll (str (cs1 ++ cs2)) "-" "" = str cs1 +:+ strings.ReplaceAll (str cs2) "-" "".
Proof.
  induction 1 as [|a cs1 Ha _ IH]; [done|].
  change (str ((a :: cs1) ++ cs2)) with (String a (str (cs1 ++ cs2))).
  cbn [strings.ReplaceAll]. rewrite (is_hex_no_hyphen a Ha).
  exact (f_equal (String a) IH).
Qed.

Lemma append_empty s : s +:+ "" = s.
Proof. induction s as [|a s IH]; [done|]. exact (f_equal (String a) IH). Qed.

Lemma ReplaceAll_digits cs :
  Forall (λ a, json.is_hex a = true) cs →
  strings.ReplaceAll (str cs) "-" "" = str cs.
Proof.
  intros Hcs. rewrite <- (app_nil_r cs) at 1.
  rewrite ReplaceAll_hyphens by done. apply append_empty.
Qed.

Lemma ReplaceAll_group g rest :
  Forall (λ a, json.is_hex a = true) g →
  strings.ReplaceAll (str (g ++ "-"%char :: rest)) "-" ""
  = str g +:+ strings.ReplaceAll (str rest) "-" "".
Proof. intros Hg. by rewrite ReplaceAll_hyphens. Qed.

Lemma match_class_hex n cs rest :
  regexp.match_class validation.hexClass n cs = Some rest →
  ∃ ds, cs = ds ++ rest ∧ length ds = n ∧ Forall (λ a, json.is_hex a = true) ds.
Proof.
  revert cs. induction n as [|n IH]; intros cs; cbn [regexp.match_class].
  - intros [= ->]. by exists [].
  - destruct cs as [|a cs]; [done|]. rewrite in_class_hex.
    destruct (json.is_hex a) eqn:Ha; [|done].
    intros (ds & -> & <- & Hds)%IH. exists (a :: ds). by repeat constructor.
Qed.

(** A text the pattern matches is five groups of hexadecimal digits, of
    eight, four, four, four and twelve digits, with a hyphen between
    each two. *)
Lemma IsValidUUID_groups uuid :
  validation.IsValidUUID uuid = true →
  ∃ g1 g2 g3 g4 g5,
    uuid = str (g1 ++ "-"%char :: g2 ++ "-"%char :: g3 ++ "-"%char :: g4 ++ "-"%char :: g5)
    ∧ (length g1, length g2, length g3, length g4, length g5) = (8, 4, 4, 4, 12)%nat
    ∧ Forall (λ a, json.is_hex a = true) (g1 ++ g2 ++ g3 ++ g4 ++ g5).
Proof.
  unfold validation.IsValidUUID, regexp.MatchString, validation.uuidRegex.
  assert (uuid = str (bytes uuid)) as Huuid
    by (symmetry; apply string_of_list_ascii_of_string).
  intros Hmatch. rewrite Huuid. revert Hmatch. clear Huuid.
  generalize (bytes uuid). intros cs. cbn [regexp.match_items].
  destruct (regexp.match_class validation.hexClass 8 cs) as [r1|] eqn:H1; [|done].
  apply match_class_hex in H1 as (g1 & -> & L1 & F1).
  destruct r1 as [|a1 r1]; [done|].
  destruct (Ascii.eqb_spec "-" a1) as [<-|]; [|done]. cbn [andb].
  destruct (regexp.match_class validation.hexClass 4 r1) as [r2|] eqn:H2; [|done].
  apply match_class_hex in H2 as (g2 & -> & L2 & F2).
  destruct r2 as [|a2 r2]; [done|].
  destruct (Ascii.eqb_spec "-" a2) as [<-|]; [|done]. cbn [andb].
  destruct (regexp.match_class validation.hexClass 4 r2) as [r3|] eqn:H3; [|done].
  apply match_class_hex in H3 as (g3 & -> & L3 & F3).
  destruct r3 as [|a3 r3]; [done|].
  destruct (Ascii.eqb_spec "-" a3) as [<-|]; [|done]. cbn [andb].
  destruct (regexp.match_class validation.hexClass 4 r3) as [r4|] eqn:H4; [|done].
  apply match_class_hex in H4 as (g4 & -> & L4 & F4).
  destruct r4 as [|a4 r4]; [done|].
  destruct (Ascii.eqb_spec "-" a4) as [<-|]; [|done]. cbn [andb].
  destruct (regexp.match_class validation.hexClass 12 r4) as [r5|] eqn:H5; [|done].
  apply match_class_hex in H5 as (g5 & -> & L5 & F5).
  destruct r5; [|done]. intros _.
  exists g1, g2, g3, g4, g5. rewrite app_nil_r.
  split; [done|]. split; [congruence|].
  by repeat (apply Forall_app; split).
Qed.

Lemma length_str cs : String.length (str cs) = length cs.
Proof. induction cs as [|a cs IH]; [done|]. exact (f_equal S IH). Qed.

Lemma str_app cs1 cs2 : str (cs1 ++ cs2) = str cs1 +:+ str cs2.
Proof. induction cs1 as [|a cs1 IH]; [done|]. exact (f_equal (String a) IH). Qed.

(** The strict check implies the lenient one: a text [IsValidUUID]
    accepts has 36 bytes, [parseUUID] accepts it too and returns sixteen
    bytes, and [bindValue] stores them in a field that is an array of
    sixteen bytes. *)
Theorem IsValidUUID_is_bound uuid structField :
  validation.IsValidUUID uuid = true →
  String.length uuid = 36%nat
  ∧ ∃ parsed,
      validation.parseUUID uuid = (parsed, None)
      ∧ length parsed = 16%nat
      ∧ validation.bindValue (reflect.TArray 16 reflect.TUint8) uuid structField
        = (None, reflect.VArray (reflect.VUint <$> parsed)).
Proof.
  intros (g1 & g2 & g3 & g4 & g5 & -> & [= L1 L2 L3 L4 L5] & Hhex)%IsValidUUID_groups.
  apply Forall_app in Hhex as [F1 Hhex]. apply Forall_app in Hhex as [F2 Hhex].
  apply Forall_app in Hhex as [F3 Hhex]. apply Forall_app in Hhex as [F4 F5].
  set (uuid := str (g1 ++ "-"%char :: g2 ++ "-"%char :: g3 ++ "-"%char :: g4
                       ++ "-"%char :: g5)).
  split.
  { subst uuid. rewrite length_str. repeat (rewrite length_app; cbn [length]). lia. }
  assert (strings.ReplaceAll uuid "-" "" = str (g1 ++ g2 ++ g3 ++ g4 ++ g5))
    as Hdigits.
  { subst uuid. rewrite !ReplaceAll_group, (ReplaceAll_digits g5) by done.
    by rewrite !str_app. }
  assert (∃ parsed, validation.parseUUID uuid = (parsed, None)
                    ∧ length parsed = 16%nat)
    as (parsed & Hparse & Hlen).
  { unfold validation.parseUUID. rewrite Hdigits.
    rewrite bool_decide_eq_false_2.
    - destruct (parseUUID_loop_hex (str (g1 ++ g2 ++ g3 ++ g4 ++ g5)) 16 0
                  (replicate 16 0)) as (parsed & -> & Hl & _); eauto.
      + rewrite length_str, !length_app. lia.
      + unfold validation.hex_digits. rewrite bytes_str. apply forallb_forall.
        intros a Ha%list_elem_of_In. revert a Ha. apply Forall_forall.
        by repeat (apply Forall_app; split).
    - intros Hne. apply Hne. rewrite length_str, !length_app. lia. }
  exists parsed. split; [done|]. split; [done|].
  cbn. by rewrite Hparse.
Qed.

End UUIDChecks.

(** ** What the errors depend on, and what [Bind] writes *)

Section Dependencies.
Context `{StructDecoder}.

Implicit Types (c : echo.Context) (typ : list reflect.StructField)
  (val : list reflect.Value).

Lemma bindValue_error_independent t rawValue v1 v2 :
  (validation.bindValue t rawValue v1).1 = (validation.bindValue t rawValue v2).1.
Proof. destruct t; cbn; try done; repeat case_match; simplify_eq; done. Qed.

Lemma BindParams_sources_errors_independent c field v1 v2 srcs :
  (validation.BindParams_sources c field v1 srcs).2
  = (validation.BindParams_sources c field v2 srcs).2.
Proof.
  induction srcs as [|source srcs IH]; [done|]. cbn [validation.BindParams_sources].
  case_bool_decide; [|done].
  pose proof (bindValue_error_independent (reflect.Type_ field)
                (validation.getParamValue c field source) v1 v2) as Herr.
  destruct (validation.bindValue _ _ v1) as [[e1|] w1],
           (validation.bindValue _ _ v2) as [[e2|] w2]; cbn in Herr; by simplify_eq.
Qed.

(** The errors of a call are those of the request against the payload
    type: what the payload held before the call plays no part in the
    errors recorded, nor in whether the call aborts. *)
Theorem errors_do_not_depend_on_payload_contents ρ typ val1 val2 c :
  length val1 = length val2 →
  (validation.BindParams c typ val1).2 = (validation.BindParams c typ val2).2
  ∧ (validation.Bind ρ typ val1 c).1.2 = (validation.Bind ρ typ val2 c).1.2
  ∧ (validation.Bind ρ typ val1 c).2 = (validation.Bind ρ typ val2 c).2.
Proof.
  intros Hlen.
  assert ((validation.BindParams c typ val1).2 = (validation.BindParams c typ val2).2)
    as Hparams.
  { rewrite !BindParams_spec. cbn [snd]. f_equal.
    revert val1 val2 Hlen.
    induction typ as [|field typ IH]; intros [|v1 val1] [|v2 val2] Hlen;
      try done. cbn [zip_with]. f_equal; [|apply IH; by injection Hlen].
    unfold validation.BindParams_field. destruct (reflect.CanSet field); [|done].
    apply BindParams_sources_errors_independent. }
  split; [done|].
  pose proof (Bind_spec ρ typ val1 c) as H1. pose proof (Bind_spec ρ typ val2 c) as H2.
  cbn zeta in H1, H2.
  destruct (validation.BindParams c typ val1) as [w1 errs1],
           (validation.BindParams c typ val2) as [w2 errs2].
  cbn [snd] in Hparams. subst errs2. rewrite H1, H2.
  destruct (echo.Body c) as [body|]; [|done].
  case_bool_decide; [done|]. by destruct (json.Unmarshal_map body).
Qed.

(** [Bind] writes to the context under the key [binding_errors] and
    under no other, and what it writes there is never an empty list. *)
Theorem Bind_sets_binding_errors_only ρ typ val c key :
  let c' := (validation.Bind ρ typ val c).1.2 in
  (key ≠ validation.bindingErrorsKey → echo.Get c' key = echo.Get c key)
  ∧ (echo.Get c' validation.bindingErrorsKey = Some []
     → echo.Get c validation.bindingErrorsKey = Some []).
Proof.
  cbn zeta.
  assert (∀ errors,
            let c' := if bool_decide (0 < length errors)%nat
                      then echo.Set_ c validation.bindingErrorsKey errors else c in
            (key ≠ validation.bindingErrorsKey → echo.Get c' key = echo.Get c key)
            ∧ (echo.Get c' validation.bindingErrorsKey = Some []
               → echo.Get c validation.bindingErrorsKey = Some [])) as Hrecord.
  { intros errors. cbn zeta. case_bool_decide as Hlen; [|done].
    unfold echo.Get, echo.Set_. cbn [echo.store]. split.
    - intros Hne. by rewrite lookup_insert_ne.
    - rewrite lookup_insert_eq. intros [= ->]. cbn in Hlen. lia. }
  pose proof (Bind_spec ρ typ val c) as Hspec. cbn zeta in Hspec.
  destruct (validation.BindParams c typ val) as [val1 paramErrs]. rewrite Hspec.
  destruct (echo.Body c) as [body|]; [|done].
  destruct (bool_decide (body = "")); [apply Hrecord|].
  destruct (json.Unmarshal_map body); [done|apply Hrecord].
Qed.

Lemma Split_go_first name rest cur :
  Forall (λ a, a ≠ ","%char) (bytes name) →
  hd "" (strings.Split_go (name +:+ String "," rest) "," cur)
  = str (rev cur ++ bytes name).
Proof.
  revert cur. induction name as [|a name IH]; intros cur Hname.
  - cbn. by rewrite app_nil_r.
  - apply Forall_cons in Hname as [Ha Hname].
    change (String a name +:+ String "," rest)
      with (String a (name +:+ String "," rest)).
    cbn [strings.Split_go]. rewrite (proj2 (Ascii.eqb_neq a ",")) by done.
    rewrite IH by done. cbn [rev bytes list_ascii_of_string].
    by rewrite <- app_assoc.
Qed.

Lemma str_bytes s : str (bytes s) = s.
Proof. apply string_of_list_ascii_of_string. Qed.

Lemma tagged_with_options name options :
  name +:+ String "," options ≠ "" ∧ name +:+ String "," options ≠ "-".
Proof. destruct name as [|a [|b name]]; done. Qed.

(** What follows the first comma of a tag is ignored: a field tagged
    [name,options] for a source is resolved from the parameter [name] of
    that source, and one tagged so for JSON is read from the key [name]
    of the body. *)
Theorem tag_options_are_ignored c field key name options fields :
  Forall (λ a, a ≠ ","%char) (bytes name) →
  reflect.Get (reflect.Tag field) key = name +:+ String "," options →
  validation.getParamValue c field key
  = (if bool_decide (key = "param") then echo.Param c name
     else if bool_decide (key = "query") then echo.QueryParam c name
     else if bool_decide (key = "form") then echo.FormValue c name
     else if bool_decide (key = "header") then echo.Header_Get c name
     else "")
  ∧ (key = "json" →
     (∀ source, source ∈ validation.sources →
                reflect.Get (reflect.Tag field) source = "") →
     validation.getJSONFields_field fields field
     = <[name := validation.unwrapped field]> fields).
Proof.
  intros Hname Htag.
  destruct (tagged_with_options name options) as [Hne Hdash].
  assert (hd "" (strings.Split (name +:+ String "," options) ",") = name) as Hsplit.
  { unfold strings.Split. rewrite Split_go_first by done. apply str_bytes. }
  split.
  - unfold validation.getParamValue. rewrite Htag.
    rewrite !bool_decide_eq_false_2 by done. cbn [orb]. by rewrite Hsplit.
  - intros -> Hsrc.
    unfold validation.getJSONFields_field, validation.unwrapped. cbn zeta.
    rewrite !(bool_decide_eq_false_2 (reflect.Get _ _ ≠ ""))
      by (intros Hc; apply Hc, Hsrc, sources_spec; auto).
    cbn [orb]. rewrite Htag.
    rewrite !bool_decide_eq_false_2 by done. cbn [orb]. rewrite Hsplit.
    by destruct (reflect.Type_ field).
Qed.

(** An error built by [createFieldError] carries the message as given;
    for the five sources param, query, form, header and json it has one
    selector set, holding the name in lower case; for any other source it
    has none. *)
Theorem createFieldError_located fieldName message source :
  let e := validation.createFieldError fieldName message source in
  errs.Error e = message
  ∧ if bool_decide (source ∈ ["param"; "query"; "form"; "header"; "json"])
    then validation.populated e = 1%nat
         ∧ validation.located_name e = Some (strings.ToLower fieldName)
    else validation.populated e = 0%nat ∧ validation.located_name e = None.
Proof.
  cbn zeta. split; [done|].
  case_bool_decide as Hin.
  - rewrite !elem_of_cons, elem_of_nil in Hin.
    by destruct Hin as [-> | [-> | [-> | [-> | [-> | []]]]]].
  - rewrite !elem_of_cons, elem_of_nil in Hin.
    unfold validation.createFieldError, validation.populated, validation.located_name,
      validation.selectors. cbn.
    rewrite !bool_decide_eq_false_2 by (intros ->; tauto). done.
Qed.

End Dependencies.

(** * The properties on worked requests *)

Section Worked.
#[local] Existing Instance Examples.floats.
#[local] Existing Instance Examples.decoder.

Import Examples.

Lemma ranges_ascending : validation.ranges ascending.
Proof. intros m. done. Qed.

Lemma ranges_descending : validation.ranges descending.
Proof. intros m. apply reverse_Permutation. Qed.

(** C5 (code defect; the code at the failing input).  The path value
    [1z000000-0000-0000-0000-000000000000] has 32 characters once the
    hyphens are stripped, one of which is no hexadecimal digit; yet
    [parseUUID] returns no error, and [bindValue] stores sixteen bytes, the
    first being 1: scanning [1z] under [%02x] stops at [z] and returns
    the byte read so far. *)
Lemma uuid_with_non_hex_character_is_bound :
  let rawValue := "1z000000-0000-0000-0000-000000000000" in
  let t := reflect.TArray 16 reflect.TUint8 in
  String.length (strings.ReplaceAll rawValue "-" "") = 32%nat
  ∧ existsb (λ a, negb (json.is_hex a)) (bytes (strings.ReplaceAll rawValue "-" "")) = true
  ∧ fmt.Sscanf_02x "1z" = inr 1
  ∧ validation.parseUUID rawValue = (1 :: replicate 15 0, None)
  ∧ validation.bindValue t rawValue (reflect.Zero t)
    = (None, reflect.VArray (reflect.VUint <$> 1 :: replicate 15 0)).
Proof. vm_compute. done. Qed.

(** C7 (counterexample).  The text [300] is a valid integer that does not
    fit an [int8] field; its coercion reports no error and stores 44. *)
Lemma int8_out_of_range_is_stored :
  strconv.ParseInt "300" 10 64 = inr 300
  ∧ ¬ (- 2 ^ 7 ≤ 300 < 2 ^ 7)
  ∧ validation.bindValue reflect.TInt8 "300" (reflect.VInt 0)
    = (None, reflect.VInt 44).
Proof. split; [done|]. split; [lia|done]. Qed.

Lemma signed_integer_coercion_witness :
  reflect.ord reflect.Int ≤ reflect.ord (reflect.KindOf reflect.TInt8)
    ≤ reflect.ord reflect.Int64
  ∧ validation.bindValue reflect.TInt8 "300" (reflect.VInt 0)
    = (None, reflect.VInt (reflect.wrap_signed 8 300))
  ∧ validation.bindValue reflect.TInt8 "9223372036854775808" (reflect.VInt 0)
    = (Some "must be a valid integer", reflect.VInt 0).
Proof.
  assert (reflect.ord reflect.Int ≤ reflect.ord (reflect.KindOf reflect.TInt8)
          ≤ reflect.ord reflect.Int64) as Hkind by (cbn; lia).
  split; [exact Hkind|]. split.
  - exact (proj1 (proj2 (proj1
      (signed_integer_coercion reflect.TInt8 "300" (reflect.VInt 0) Hkind)))).
  - exact (proj1
      (signed_integer_coercion reflect.TInt8 "9223372036854775808" (reflect.VInt 0) Hkind)).
Defined.

(** C4 (code defect; the code at the failing input).  [DueDate] is read
    from the key [dueDate]; the body holds a number there, so the field
    has a binding error and stays empty, and the rule [required] is
    violated.  The binding error is recorded under the key, [dueDate], the
    rule violation is looked up under the lower-cased Go name, [duedate]:
    it is not found, and the rule error is added on top of the binding
    error of the same field. *)
Lemma rule_error_piled_on_binding_error :
  (validation.BindAndValidate ascending due_date_number TodoPayload (fresh Todo)).2
  = Some (ErrsHTTPError
            (errs.NewUnprocessableError "Validation failed" true None
               [ validation.fieldError "dueDate" "expected string but got number";
                 validation.fieldError "duedate" "is required" ])).
Proof. vm_compute. done. Qed.




(** C8 (witness): the age that failed to coerce is still zero after [Bind]. *)
Lemma no_partial_field_corruption_witness :
  Profile !! 1%nat = Some (field "Age" reflect.TInt8 [("query", "age"); ("header", "X-Age")])
  ∧ validation.coercion_fails bad_age
      (field "Age" reflect.TInt8 [("query", "age"); ("header", "X-Age")], reflect.VInt 0)
    = true
  ∧ (validation.Bind ascending Profile (fresh Profile) bad_age).1.1 !! 1%nat
    = Some (reflect.VInt 0).
Proof.
  split; [done|]. split; [done|].
  apply (no_partial_field_corruption ascending bad_age Profile (fresh Profile) 1%nat
           (field "Age" reflect.TInt8 [("query", "age"); ("header", "X-Age")])
           eq_refl eq_refl eq_refl).
  done.
Defined.

(** C10 (witness): null for the optional [nick]. *)
Lemma null_is_a_type_mismatch_witness :
  let Nick := field "Nick" (reflect.TPointer reflect.TString) [("json", "nick,omitempty")] in
  let rawMap := json.to_map [("name", json.JString "x"); ("nick", json.JNull)] in
  validation.json_name Nick = Some "nick"
  ∧ validation.coarse_type (validation.unwrapped Nick) = Some "string"
  ∧ rawMap !! "nick" = Some json.JNull
  ∧ validation.fieldError "nick" "expected string but got null"
    ∈ validation.validateJSONStructure Profile (descending rawMap).
Proof.
  cbn zeta. split; [done|]. split; [done|]. split; [done|].
  apply (null_is_a_type_mismatch descending (take 3 Profile)
           (field "Nick" (reflect.TPointer reflect.TString) [("json", "nick,omitempty")])
           [] "nick" "string"
           (json.to_map [("name", json.JString "x"); ("nick", json.JNull)])
           ranges_descending eq_refl).
  - by intros g ?%elem_of_nil.
  - done.
  - done.
Defined.

(** C3 (counterexample).  The body [[]] is valid JSON, and [Bind] aborts
    on it with the 400 error. *)
Lemma valid_json_array_aborts :
  json.Valid "[]" = true
  ∧ echo.Body array_body = Some "[]"
  ∧ validation.Bind ascending Profile (fresh Profile) array_body
    = (fresh Profile, array_body,
       Some (echo.NewHTTPError 400
               (echo.InvalidJSON (json.UnmarshalTypeError "array")))).
Proof. done. Qed.

(** C3 (witness): the truncated body of scenario E. *)
Lemma malformed_body_aborts_witness :
  echo.Body truncated_body = Some (json_text "{'a':")
  ∧ json_text "{'a':" ≠ ""
  ∧ json.Valid (json_text "{'a':") = false
  ∧ ∃ val',
      validation.Bind ascending Profile (fresh Profile) truncated_body
      = (val', truncated_body,
         Some (echo.NewHTTPError 400 (echo.InvalidJSON json.SyntaxError))).
Proof.
  split; [done|]. split; [done|]. split; [done|].
  exact (proj1 (malformed_body_aborts ascending Profile (fresh Profile) truncated_body
                  (json_text "{'a':") eq_refl ltac:(done))).
Defined.

(** C6 (counterexample).  The same request, bound twice, with the decoded
    body ranged over in two orders: the two error lists differ. *)
Lemma error_order_depends_on_range_order :
  validation.ranges ascending ∧ validation.ranges descending
  ∧ validation.binding_errors
      (validation.Bind ascending Profile (fresh Profile) two_unknown_keys).1.2
    = [validation.fieldError "a" "unknown field";
       validation.fieldError "b" "unknown field"]
  ∧ validation.binding_errors
      (validation.Bind descending Profile (fresh Profile) two_unknown_keys).1.2
    = [validation.fieldError "b" "unknown field";
       validation.fieldError "a" "unknown field"].
Proof.
  split; [exact ranges_ascending|]. split; [exact ranges_descending|].
  split; vm_compute; done.
Qed.

(** C6 (witness). *)
Lemma bind_agrees_up_to_range_order_witness :
  validation.ranges ascending ∧ validation.ranges descending
  ∧ ∃ val' structErrs1 structErrs2,
      structErrs1 ≡ₚ structErrs2
      ∧ validation.Bind ascending Profile (fresh Profile) two_unknown_keys
        = (val', echo.Set_ two_unknown_keys validation.bindingErrorsKey structErrs1, None)
      ∧ validation.Bind descending Profile (fresh Profile) two_unknown_keys
        = (val', echo.Set_ two_unknown_keys validation.bindingErrorsKey structErrs2, None).
Proof.
  split; [exact ranges_ascending|]. split; [exact ranges_descending|].
  destruct (bind_agrees_up_to_range_order ascending descending Profile (fresh Profile)
              two_unknown_keys ranges_ascending ranges_descending)
    as (val' & err & paramErrs & s1 & s2 & Hparam & Hperm & Hcases).
  vm_compute in Hparam. subst paramErrs.
  destruct Hcases as [(_ & H1 & H2)|(Herr & H1 & _)].
  - exists val', s1, s2. split; [done|].
    assert (0 < length s1)%nat as Hlen1.
    { destruct s1; [|cbn; lia]. by vm_compute in H1. }
    assert (0 < length s2)%nat as Hlen2 by by rewrite <- Hperm.
    cbn [app] in H1, H2.
    by rewrite bool_decide_eq_true_2 in H1, H2.
  - exfalso. apply Herr. by vm_compute in H1.
Defined.

(** C9 (counterexample).  The error recorded for the unknown key [Extra]
    carries the key as the body spells it, which is not lower case. *)
Lemma structural_error_keeps_case :
  validation.binding_errors
    (validation.Bind ascending Profile (fresh Profile) capital_key).1.2
  = [validation.fieldError "Extra" "unknown field"]
  ∧ validation.located_name (validation.fieldError "Extra" "unknown field")
    = Some "Extra"
  ∧ strings.ToLower "Extra" = "extra".
Proof. split; [|done]. vm_compute. done. Qed.

(** C9 (witness). *)
Lemma located_errors_well_formed_witness :
  validation.ranges ascending
  ∧ ∃ val' allErrors,
      validation.Bind ascending Profile (fresh Profile) five_failures
      = (val', echo.Set_ five_failures validation.bindingErrorsKey allErrors, None)
      ∧ Forall (λ e, validation.populated e = 1%nat) allErrors.
Proof.
  split; [exact ranges_ascending|].
  destruct (located_errors_well_formed ascending Profile (fresh Profile) five_failures
              ranges_ascending) as (val' & err & allErrors & HBind & Hall).
  exists val', allErrors. split.
  - destruct allErrors as [|e allErrors]; [by vm_compute in HBind|].
    rewrite HBind. cbn [length]. rewrite bool_decide_eq_true_2 by lia.
    f_equal. vm_compute in HBind. by injection HBind as _ _ <-.
  - apply Forall_forall. intros e He. by apply Hall.
Defined.

(** The merge on a bad query age with no body: the binding error of the
    age, then the rule error for the missing name; the rule error for the
    age is left out. *)
Lemma BindAndValidate_merge_witness :
  let c' := (validation.Bind ascending Profile (fresh Profile) bad_age).1.2 in
  validation.Bind ascending (validation.typ ProfilePayload) (fresh Profile) bad_age
  = (fresh Profile, c', None)
  ∧ validation.Validate ProfilePayload (fresh Profile)
    = [ {| validator.Field := "Age"; validator.Tag := "required";
           validator.Param := ""; validator.Kind := reflect.Int8 |};
        {| validator.Field := "Name"; validator.Tag := "required";
           validator.Param := ""; validator.Kind := reflect.String |} ]
  ∧ validation.BindAndValidate ascending bad_age ProfilePayload (fresh Profile)
    = (fresh Profile, c',
       Some (ErrsHTTPError
               (errs.NewUnprocessableError "Validation failed" true None
                  (validation.binding_errors c'
                   ++ [validation.createFieldError "Name" "is required" "json"])))).
Proof.
  cbn zeta.
  assert (validation.Bind ascending (validation.typ ProfilePayload) (fresh Profile) bad_age
          = (fresh Profile,
             (validation.Bind ascending Profile (fresh Profile) bad_age).1.2, None))
    as HBind by (vm_compute; reflexivity).
  split; [exact HBind|]. split; [reflexivity|].
  rewrite (BindAndValidate_merge ascending bad_age ProfilePayload (fresh Profile)
             _ _ HBind).
  vm_compute. reflexivity.
Defined.


(** A UUID in mixed case: the sixth byte is [0xab]. *)
Lemma parseUUID_hex_witness :
  let digits := strings.ReplaceAll "01234567-89ab-cdef-0123-456789ABCDEF" "-" "" in
  String.length digits = 32%nat
  ∧ validation.hex_digits digits = true
  ∧ ∃ uuid,
      validation.parseUUID "01234567-89ab-cdef-0123-456789ABCDEF" = (uuid, None)
      ∧ uuid !! 5%nat = Some 171.
Proof.
  cbn zeta. split; [reflexivity|]. split; [reflexivity|].
  destruct (parseUUID_hex "01234567-89ab-cdef-0123-456789ABCDEF" eq_refl eq_refl)
    as (uuid & Hparse & _ & Hbytes).
  exists uuid. split; [exact Hparse|].
  exact (Hbytes 5%nat "a"%char "b"%char ltac:(lia) eq_refl eq_refl).
Defined.

(** An unsigned byte: 300 is stored as 44, and a sign is refused. *)
Lemma unsigned_integer_coercion_witness :
  reflect.ord reflect.Uint ≤ reflect.ord (reflect.KindOf reflect.TUint8)
    ≤ reflect.ord reflect.Uint64
  ∧ validation.bindValue reflect.TUint8 "300" (reflect.VUint 0)
    = (None, reflect.VUint (reflect.wrap_unsigned 8 300))
  ∧ validation.bindValue reflect.TUint8 "-1" (reflect.VUint 0)
    = (Some "must be a valid unsigned integer", reflect.VUint 0).
Proof.
  assert (reflect.ord reflect.Uint ≤ reflect.ord (reflect.KindOf reflect.TUint8)
          ≤ reflect.ord reflect.Uint64) as Hkind by (cbn; lia).
  split; [exact Hkind|]. split.
  - exact (proj1 (proj2 (proj1
      (unsigned_integer_coercion reflect.TUint8 "300" (reflect.VUint 0) Hkind)))).
  - exact (proj1 (proj2
      (unsigned_integer_coercion reflect.TUint8 "300" (reflect.VUint 0) Hkind))
      "-"%char "1" (or_introl eq_refl)).
Defined.

(** A request without parameters binds nothing in a profile. *)
Lemma absent_inputs_bind_nothing_witness :
  (∀ field, field ∈ Profile →
     reflect.CanSet field = false
     ∨ ∀ source, source ∈ validation.sources →
         validation.getParamValue no_parameters field source = "")
  ∧ validation.BindParams no_parameters Profile (fresh Profile) = (fresh Profile, []).
Proof.
  assert (∀ field, field ∈ Profile →
            reflect.CanSet field = false
            ∨ ∀ source, source ∈ validation.sources →
                validation.getParamValue no_parameters field source = "") as Habsent.
  { intros field Hin. right. intros source Hsrc.
    apply sources_spec in Hsrc. unfold Profile in Hin.
    rewrite !elem_of_cons, elem_of_nil in Hin.
    destruct Hin as [-> | [-> | [-> | [-> | []]]]],
             Hsrc as [-> | [-> | [-> | ->]]]; reflexivity. }
  split; [exact Habsent|].
  exact (absent_inputs_bind_nothing no_parameters Profile (fresh Profile) Habsent).
Defined.

(** An age tagged [age,omitempty] for the query is read from [age]. *)
Lemma tag_options_are_ignored_witness :
  let Age := field "Age" reflect.TInt8 [("query", "age,omitempty")] in
  Forall (λ a, a ≠ ","%char) (bytes "age")
  ∧ reflect.Get (reflect.Tag Age) "query" = "age" +:+ String "," "omitempty"
  ∧ validation.getParamValue two_ages Age "query" = "7".
Proof.
  cbn zeta.
  assert (Forall (λ a, a ≠ ","%char) (bytes "age")) as Hname
    by (repeat constructor; discriminate).
  split; [exact Hname|]. split; [reflexivity|].
  exact (proj1 (tag_options_are_ignored two_ages
                  (field "Age" reflect.TInt8 [("query", "age,omitempty")])
                  "query" "age" "omitempty" ∅ Hname eq_refl)).
Defined.

(** A number under the key of the profile's name. *)
Lemma structural_check_by_coarse_type_witness :
  let ID := field "ID" (reflect.TArray 16 reflect.TUint8) [("param", "id")] in
  let Age := field "Age" reflect.TInt8 [("query", "age"); ("header", "X-Age")] in
  let Name := field "Name" reflect.TString [("json", "name")] in
  let Nick := field "Nick" (reflect.TPointer reflect.TString) [("json", "nick,omitempty")] in
  validation.json_name Name = Some "name"
  ∧ (∀ g, g ∈ [Nick] → validation.json_name g ≠ Some "name")
  ∧ validation.validateJSONStructure ([ID; Age] ++ Name :: [Nick])
      [("name", json.JNumber "5")]
    = [validation.fieldError "name" "expected string but got number"].
Proof.
  cbn zeta.
  assert (∀ g, g ∈ [field "Nick" (reflect.TPointer reflect.TString)
                      [("json", "nick,omitempty")]] →
               validation.json_name g ≠ Some "name") as Hpost.
  { intros g Hin%list_elem_of_singleton. subst g. discriminate. }
  split; [reflexivity|]. split; [exact Hpost|].
  exact (structural_check_by_coarse_type
           [field "ID" (reflect.TArray 16 reflect.TUint8) [("param", "id")];
            field "Age" reflect.TInt8 [("query", "age"); ("header", "X-Age")]]
           (field "Name" reflect.TString [("json", "name")])
           [field "Nick" (reflect.TPointer reflect.TString) [("json", "nick,omitempty")]]
           "name" (json.JNumber "5") eq_refl Hpost).
Defined.

(** A body that only holds a name passes the structural check. *)
Lemma no_structural_error_iff_witness :
  validation.ranges ascending
  ∧ validation.validateJSONStructure Profile
      (ascending {[ "name" := json.JString "x" ]})
    = [].
Proof.
  split; [exact ranges_ascending|].
  apply (proj2 (no_structural_error_iff ascending Profile
                  {[ "name" := json.JString "x" ]} ranges_ascending)).
  intros key rawValue [<- <-]%lookup_singleton_Some.
  exists reflect.TString. split; reflexivity.
Defined.

(** The message for the bad age is one of the six. *)
Lemma coercion_messages_are_fixed_witness :
  let e := validation.createFieldError "Age" "must be a valid integer" "query" in
  e ∈ (validation.BindParams bad_age Profile (fresh Profile)).2
  ∧ errs.Error e
    ∈ [ "invalid UUID format"; "must be a valid integer";
        "must be a valid unsigned integer"; "must be a valid number";
        "must be a valid boolean"; "unsupported type for binding" ].
Proof.
  cbn zeta.
  assert (validation.createFieldError "Age" "must be a valid integer" "query"
          ∈ (validation.BindParams bad_age Profile (fresh Profile)).2) as Hin
    by (vm_compute; left).
  split; [exact Hin|].
  exact (proj1 (coercion_messages_are_fixed bad_age Profile (fresh Profile) _ Hin)).
Defined.

(** The two errors returned for the bad age and the missing name. *)
Lemma BindAndValidate_errors_well_formed_witness :
  echo.Get bad_age validation.bindingErrorsKey = None
  ∧ ∃ httpErr,
      (validation.BindAndValidate ascending bad_age ProfilePayload (fresh Profile)).2
      = Some (ErrsHTTPError httpErr)
      ∧ length (errs.Errors httpErr) = 2%nat
      ∧ Forall (λ e, validation.populated e = 1%nat ∧ errs.Error e ≠ "")
          (errs.Errors httpErr).
Proof.
  split; [reflexivity|].
  set (c' := (validation.Bind ascending Profile (fresh Profile) bad_age).1.2).
  set (httpErr :=
         errs.NewUnprocessableError "Validation failed" true None
           (validation.binding_errors c'
            ++ [validation.createFieldError "Name" "is required" "json"])).
  assert (validation.BindAndValidate ascending bad_age ProfilePayload (fresh Profile)
          = (fresh Profile, c', Some (ErrsHTTPError httpErr))) as HB
    by (vm_compute; reflexivity).
  exists httpErr. split; [by rewrite HB|]. split; [reflexivity|].
  exact (BindAndValidate_errors_well_formed ascending bad_age ProfilePayload
           (fresh Profile) (fresh Profile) c' httpErr eq_refl HB).
Defined.

(** A UUID in its canonical spelling. *)
Lemma IsValidUUID_is_bound_witness :
  validation.IsValidUUID "01234567-89ab-cdef-0123-456789ABCDEF" = true
  ∧ ∃ parsed,
      validation.parseUUID "01234567-89ab-cdef-0123-456789ABCDEF" = (parsed, None)
      ∧ length parsed = 16%nat.
Proof.
  split; [reflexivity|].
  destruct (IsValidUUID_is_bound "01234567-89ab-cdef-0123-456789ABCDEF"
              (reflect.VArray []) eq_refl) as (_ & parsed & Hparse & Hlen & _).
  exists parsed. split; [exact Hparse|exact Hlen].
Defined.

(** The bad age is reported alike on a fresh profile and on a used one. *)
Lemma errors_do_not_depend_on_payload_contents_witness :
  let used := [reflect.VArray []; reflect.VInt 5; reflect.VString "old";
               reflect.VPointer None] in
  length (fresh Profile) = length used
  ∧ (validation.BindParams bad_age Profile (fresh Profile)).2
    = (validation.BindParams bad_age Profile used).2.
Proof.
  cbn zeta. split; [reflexivity|].
  exact (proj1 (errors_do_not_depend_on_payload_contents ascending Profile
                  (fresh Profile)
                  [reflect.VArray []; reflect.VInt 5; reflect.VString "old";
                   reflect.VPointer None] bad_age eq_refl)).
Defined.

(** The rule [required] on the name, whose key holds a number. *)
Lemma rule_error_on_failed_json_key_is_skipped_witness :
  let c' := (validation.Bind ascending Profile (fresh Profile) name_number).1.2 in
  validation.ranges ascending
  ∧ json.Unmarshal_map (json_text "{'name':5}")
    = inr (json.to_map [("name", json.JNumber "5")])
  ∧ validation.key_fails Profile ("name", json.JNumber "5") = true
  ∧ validation.binding_errors c'
    = [validation.fieldError "name" "expected string but got number"]
  ∧ validation.appendRuleError Profile
      (foldl validation.trackBindingError ∅ (validation.binding_errors c')) []
      {| validator.Field := "Name"; validator.Tag := "required";
         validator.Param := ""; validator.Kind := reflect.String |}
    = [].
Proof.
  cbn zeta. split; [exact ranges_ascending|].
  split; [reflexivity|]. split; [reflexivity|]. split; [reflexivity|].
  exact (proj2 (rule_error_on_failed_json_key_is_skipped ascending name_number
                  ProfilePayload (fresh Profile) (json_text "{'name':5}")
                  (json.to_map [("name", json.JNumber "5")]) "name" (json.JNumber "5")
                  {| validator.Field := "Name"; validator.Tag := "required";
                     validator.Param := ""; validator.Kind := reflect.String |} []
                  ranges_ascending eq_refl ltac:(done) eq_refl eq_refl eq_refl eq_refl)).
Defined.

(** The code of a 422. *)
Lemma MakeUpperSnakeCase_normal_form_witness :
  Forall (λ a, byte_val a < 128) (bytes "Unprocessable Entity")
  ∧ errs.MakeUpperSnakeCase "Unprocessable Entity" = "UNPROCESSABLE_ENTITY"
  ∧ errs.MakeUpperSnakeCase "UNPROCESSABLE_ENTITY" = "UNPROCESSABLE_ENTITY".
Proof.
  assert (Forall (λ a, byte_val a < 128) (bytes "Unprocessable Entity")) as Hascii
    by (repeat constructor).
  split; [exact Hascii|]. split; [reflexivity|].
  exact (proj2 (proj2 (MakeUpperSnakeCase_normal_form "Unprocessable Entity" Hascii))).
Defined.

End Worked.

(** * A body that names a sourced field *)

Section WorkedDecoding.
#[local] Existing Instance Examples.floats.
#[local] Existing Instance Examples.age_decoder.

Import Examples.

(** C8 (counterexample).  The query holds [age=abc] and the body
    [{"Age":7}].  The coercion of the query value fails and writes
    nothing, yet after [Bind] the field holds 7 and not its zero value:
    the decoding of the body into the struct, which comes last, reads the
    field from the key [Age]. *)
Lemma failed_field_written_by_body_decode :
  validation.coercion_fails bad_age_and_body_age
    ({| reflect.Name := "Age"; reflect.Type_ := reflect.TInt8;
        reflect.Tag := [("query", "age")] |}, reflect.VInt 0)
  = true
  ∧ (validation.BindParams bad_age_and_body_age Aged [reflect.VInt 0]).1
    = [reflect.VInt 0]
  ∧ (validation.Bind ascending Aged [reflect.VInt 0] bad_age_and_body_age).1.1
    = [reflect.VInt 7]
  ∧ (validation.Bind ascending Aged [reflect.VInt 0] bad_age_and_body_age).2 = None.
Proof. vm_compute. done. Qed.

End WorkedDecoding.
